(** * Location Resolution Engine: a shallow embedding of
      back/src/services/geocode.service.ts and
      back/src/services/fallback-geocode.service.ts
      (GeocodingService, FallbackGeocodeService, ZipCodeBaseService).

    JavaScript strings are sequences of UTF-16 code units, numbers are
    IEEE 754 binary64 values (Rocq's primitive floats), regular
    expressions are run by a backtracking matcher with capture groups,
    and every awaited provider call is an oracle of the [Providers]
    record, so that a chain is a pure function of the provider answers. *)

From Stdlib Require Import Ascii String.
From Stdlib Require Import ZArith NArith List Bool Lia Floats.
Import ListNotations.

Set Implicit Arguments.
Set Warnings "-inexact-float".

(* ================================================================== *)
(** * JavaScript strings *)
(* ================================================================== *)

Module JS.

(** A UTF-16 code unit. *)
Definition char := N.
Definition str := list char.

Definition ch (a : ascii) : char := N_of_ascii a.

(** An ASCII literal as a JavaScript string. *)
Fixpoint lit (s : string) : str :=
  match s with
  | EmptyString => []
  | String a s' => ch a :: lit s'
  end.

Definition char_eqb (a b : char) : bool := N.eqb a b.

(** The characters the patterns name; U+00B0 is the degree sign,
    U+2032 and U+2033 are the prime and the double prime. *)
Definition c_minus : char := 45%N.
Definition c_plus : char := 43%N.
Definition c_dot : char := 46%N.
Definition c_comma : char := 44%N.
Definition c_semicolon : char := 59%N.
Definition c_apostrophe : char := 39%N.
Definition c_quote : char := 34%N.
Definition c_degree : char := 176%N.
Definition c_prime : char := 8242%N.
Definition c_dprime : char := 8243%N.
Definition c_zero : char := 48%N.
Definition c_e : char := 101%N.
Definition c_E : char := 69%N.

Fixpoint str_eqb (a b : str) : bool :=
  match a, b with
  | [], [] => true
  | x :: a', y :: b' => char_eqb x y && str_eqb a' b'
  | _, _ => false
  end.

(** Truthiness of a string: the empty string is falsy. *)
Definition truthy (s : str) : bool :=
  match s with [] => false | _ :: _ => true end.

(** Truthiness of a possibly missing (undefined or null) string. *)
Definition truthy_opt (o : option str) : bool :=
  match o with Some s => truthy s | None => false end.

(** [a || d] on a possibly missing string. *)
Definition or_else (o : option str) (d : str) : str :=
  match o with
  | Some s => if truthy s then s else d
  | None => d
  end.

(** [\d] : ASCII digits only. *)
Definition isDigit (c : char) : bool := (48 <=? c)%N && (c <=? 57)%N.

(** WhiteSpace and LineTerminator code points: the set shared by
    [String.prototype.trim], the regex class [\s] and the prefix that
    [parseFloat] skips. *)
Definition isWhiteSpace (c : char) : bool :=
  ((9 <=? c)%N && (c <=? 13)%N)
  || (c =? 32)%N || (c =? 160)%N || (c =? 5760)%N
  || ((8192 <=? c)%N && (c <=? 8202)%N)
  || (c =? 8232)%N || (c =? 8233)%N || (c =? 8239)%N
  || (c =? 8287)%N || (c =? 12288)%N || (c =? 65279)%N.

Fixpoint trimStart (s : str) : str :=
  match s with
  | c :: s' => if isWhiteSpace c then trimStart s' else s
  | [] => []
  end.

Definition trimEnd (s : str) : str := rev (trimStart (rev s)).

(** [s.trim()] *)
Definition trim (s : str) : str := trimEnd (trimStart s).

Fixpoint startsWith (p s : str) : bool :=
  match p, s with
  | [], _ => true
  | x :: p', y :: s' => char_eqb x y && startsWith p' s'
  | _ :: _, [] => false
  end.

(** [s.includes(k)] *)
Fixpoint includes (s k : str) : bool :=
  startsWith k s ||
  match s with
  | [] => false
  | _ :: s' => includes s' k
  end.

(** [s.split(sep)] for a one-character separator. *)
Fixpoint split_char (sep : char) (s : str) : list str :=
  match s with
  | [] => [[]]
  | c :: s' =>
      if char_eqb c sep then [] :: split_char sep s'
      else match split_char sep s' with
           | w :: ws => (c :: w) :: ws
           | [] => [[c]]
           end
  end.

(** [parts.join(sep)] *)
Fixpoint join (sep : str) (parts : list str) : str :=
  match parts with
  | [] => []
  | [p] => p
  | p :: ps => p ++ sep ++ join sep ps
  end.

(** [[...new Set(xs)]] : first occurrences, in insertion order. *)
Fixpoint dedupe_acc (seen : list str) (xs : list str) : list str :=
  match xs with
  | [] => []
  | x :: xs' =>
      if existsb (str_eqb x) seen then dedupe_acc seen xs'
      else x :: dedupe_acc (x :: seen) xs'
  end.

Definition dedupe (xs : list str) : list str := dedupe_acc [] xs.

End JS.

Import JS.

(* ================================================================== *)
(** * Regular expressions *)
(* ================================================================== *)

Module Regex.

(** The fragment of the pattern language the services use.  Anchors are
    not constructors: every anchored pattern of the program is [^...$]
    and is run with [full_match]; the only unanchored one is run with
    [search].  No pattern of the program has a group under a quantifier. *)
Inductive re : Type :=
| Eps
| Cls (p : char -> bool)
| Seq (r1 r2 : re)
| Alt (r1 r2 : re)
| Star (r : re)
| Grp (r : re).

Definition caps := list str.

(** One success of the matcher: the captures and the unread input. *)
Definition success := (caps * str)%type.

Definition then_caps (c1 : caps) (x : success) : success :=
  (c1 ++ fst x, snd x).

(** Greedy iteration; an iteration that consumes nothing is rejected,
    as the RepeatMatcher of the language does. *)
Fixpoint star_loop (step : str -> list success) (fuel : nat) (s : str)
  : list success :=
  match fuel with
  | O => [([], s)]
  | S fuel' =>
      flat_map (fun x =>
                  if (length (snd x) <? length s)%nat
                  then map (then_caps (fst x)) (star_loop step fuel' (snd x))
                  else [])
               (step s)
      ++ [([], s)]
  end.

(** All the ways [r] matches a prefix of [s], in backtracking order. *)
Fixpoint exec (r : re) (s : str) : list success :=
  match r with
  | Eps => [([], s)]
  | Cls p =>
      match s with
      | c :: s' => if p c then [([], s')] else []
      | [] => []
      end
  | Seq r1 r2 =>
      flat_map (fun x => map (then_caps (fst x)) (exec r2 (snd x))) (exec r1 s)
  | Alt r1 r2 => exec r1 s ++ exec r2 s
  | Star r1 => star_loop (exec r1) (length s) s
  | Grp r1 =>
      map (fun x => (firstn (length s - length (snd x)) s :: fst x, snd x))
          (exec r1 s)
  end.

Definition at_end (x : success) : bool :=
  match snd x with [] => true | _ :: _ => false end.

(** [s.match(/^r$/)] : the captures of the first complete match. *)
Definition full_match (r : re) (s : str) : option caps :=
  match filter at_end (exec r s) with
  | x :: _ => Some (fst x)
  | [] => None
  end.

(** [/^r$/.test(s)] *)
Definition test (r : re) (s : str) : bool :=
  match full_match r s with Some _ => true | None => false end.

(** [/r/.test(s)] for an unanchored pattern. *)
Fixpoint search (r : re) (s : str) : bool :=
  match exec r s with
  | _ :: _ => true
  | [] => match s with
          | [] => false
          | _ :: s' => search r s'
          end
  end.

(** Derived forms. *)
Definition Chr (c : char) : re := Cls (char_eqb c).
Definition OneOf (cs : list char) : re := Cls (fun c => existsb (char_eqb c) cs).
Definition Opt (r : re) : re := Alt r Eps.
Definition Plus (r : re) : re := Seq r (Star r).

Fixpoint Times (n : nat) (r : re) : re :=
  match n with
  | O => Eps
  | S n' => Seq r (Times n' r)
  end.

Fixpoint UpTo (n : nat) (r : re) : re :=
  match n with
  | O => Eps
  | S n' => Opt (Seq r (UpTo n' r))
  end.

(** [r{lo,hi}] *)
Definition Range (lo hi : nat) (r : re) : re := Seq (Times lo r) (UpTo (hi - lo) r).

Fixpoint seqs (rs : list re) : re :=
  match rs with
  | [] => Eps
  | [r] => r
  | r :: rs' => Seq r (seqs rs')
  end.

Definition digit : re := Cls isDigit.
Definition space : re := Cls isWhiteSpace.

(** Case-insensitive ASCII letter, for patterns under the [i] flag. *)
Definition upper_of (c : char) : char :=
  if ((97 <=? c)%N && (c <=? 122)%N) then (c - 32)%N else c.
Definition letter_i (cs : list char) : re :=
  Cls (fun c => existsb (char_eqb (upper_of c)) cs).

(** Declarative reading of a pattern: [Sem r m c] when [r] matches
    exactly [m] with captures [c]. *)
Inductive Sem : re -> str -> caps -> Prop :=
| SemEps : Sem Eps [] []
| SemCls p c : p c = true -> Sem (Cls p) [c] []
| SemSeq r1 r2 m1 m2 c1 c2 :
    Sem r1 m1 c1 -> Sem r2 m2 c2 -> Sem (Seq r1 r2) (m1 ++ m2) (c1 ++ c2)
| SemAltL r1 r2 m c : Sem r1 m c -> Sem (Alt r1 r2) m c
| SemAltR r1 r2 m c : Sem r2 m c -> Sem (Alt r1 r2) m c
| SemStar0 r : Sem (Star r) [] []
| SemStarS r m1 m2 c1 c2 :
    m1 <> [] -> Sem r m1 c1 -> Sem (Star r) m2 c2 ->
    Sem (Star r) (m1 ++ m2) (c1 ++ c2)
| SemGrp r m c : Sem r m c -> Sem (Grp r) m (m :: c).

End Regex.

Import Regex.

(* ================================================================== *)
(** * JavaScript numbers *)
(* ================================================================== *)

Module Num.

Definition number := float.
Bind Scope float_scope with number.

Definition NaN : number := PrimFloat.nan.

(** The decimal [m * 10^e10], rounded to the nearest binary64 value
    (ties to even). *)
Definition dec_to_SF (neg : bool) (m : Z) (e10 : Z) : spec_float :=
  match m with
  | Zpos p =>
      if (0 <=? e10)%Z
      then SFdiv prec emax
             (S754_finite neg (Z.to_pos (Zpos p * 10 ^ e10)) 0)
             (S754_finite false 1 0)
      else SFdiv prec emax
             (S754_finite neg p 0)
             (S754_finite false (Z.to_pos (10 ^ (- e10))) 0)
  | _ => S754_zero neg
  end.

Fixpoint take_digits (s : str) : str * str :=
  match s with
  | c :: s' =>
      if isDigit c
      then let (ds, rest) := take_digits s' in (c :: ds, rest)
      else ([], s)
  | [] => ([], [])
  end.

Definition digits_value (ds : str) : Z :=
  fold_left (fun acc c => (10 * acc + (Z.of_N c - Z.of_N c_zero))%Z) ds 0%Z.

(** The optional ExponentPart of a StrDecimalLiteral; 0 when there is
    none (an [e] not followed by digits is not part of the literal). *)
Definition parse_exponent (s : str) : Z :=
  match s with
  | c :: s' =>
      if char_eqb c c_e || char_eqb c c_E then
        match s' with
        | c' :: s'' =>
            if char_eqb c' c_minus then
              match fst (take_digits s'') with
              | [] => 0%Z
              | ds => (- digits_value ds)%Z
              end
            else if char_eqb c' c_plus then digits_value (fst (take_digits s''))
            else digits_value (fst (take_digits s'))
        | [] => 0%Z
        end
      else 0%Z
  | [] => 0%Z
  end.

Definition parse_unsigned (neg : bool) (s : str) : number :=
  if startsWith (lit "Infinity") s
  then (if neg then neg_infinity else infinity)
  else
    let (ip, r1) := take_digits s in
    match r1 with
    | c :: r1' =>
        if char_eqb c c_dot then
          let (fp, r2) := take_digits r1' in
          match ip ++ fp with
          | [] => NaN
          | ds => SF2Prim (dec_to_SF neg (digits_value ds)
                             (parse_exponent r2 - Z.of_nat (length fp)))
          end
        else
          match ip with
          | [] => NaN
          | _ => SF2Prim (dec_to_SF neg (digits_value ip) (parse_exponent r1))
          end
    | [] =>
        match ip with
        | [] => NaN
        | _ => SF2Prim (dec_to_SF neg (digits_value ip) 0)
        end
    end.

(** [parseFloat(s)] : the longest prefix of the trimmed input that is a
    StrDecimalLiteral, or NaN. *)
Definition parseFloat (s : str) : number :=
  match trimStart s with
  | c :: s' =>
      if char_eqb c c_minus then parse_unsigned true s'
      else if char_eqb c c_plus then parse_unsigned false s'
      else parse_unsigned false (c :: s')
  | [] => NaN
  end.

(** [parseFloat(a[i])] on a possibly missing element: [undefined]
    converts to the string "undefined", which is not a number. *)
Definition parseFloat_opt (o : option str) : number :=
  match o with
  | Some s => parseFloat s
  | None => NaN
  end.

Definition isNaN (x : number) : bool := PrimFloat.is_nan x.

(** The relational operators; every comparison with NaN is false. *)
Definition lt (x y : number) : bool := PrimFloat.ltb x y.
Definition gt (x y : number) : bool := PrimFloat.ltb y x.
Definition le (x y : number) : bool := PrimFloat.leb x y.
Definition ge (x y : number) : bool := PrimFloat.leb y x.

(** Decimal digits of a non-negative integer. *)
Fixpoint digits_aux (fuel : nat) (z : Z) (acc : str) : str :=
  match fuel with
  | O => acc
  | S fuel' =>
      let d := (c_zero + Z.to_N (z mod 10))%N in
      if (z <? 10)%Z then d :: acc
      else digits_aux fuel' (z / 10)%Z (d :: acc)
  end.

Definition Z_digits (z : Z) : str :=
  digits_aux (S (Z.to_nat (Z.log2 z))) z [].

(** [x < 10^n] for the positive rational [x = nx / dx]. *)
Definition below_pow10 (nx dx : Z) (n : Z) : bool :=
  if (0 <=? n)%Z then (nx <? 10 ^ n * dx)%Z
  else (nx * 10 ^ (- n) <? dx)%Z.

Fixpoint find_n (fuel : nat) (nx dx : Z) (n : Z) : Z :=
  match fuel with
  | O => n
  | S fuel' => if below_pow10 nx dx n then n else find_n fuel' nx dx (n + 1)%Z
  end.

(** The [n] of Number::toString: [10^(n-1) <= x < 10^n]. *)
Definition dec_exponent (nx dx : Z) : Z :=
  find_n 16 nx dx (((Z.log2 nx - Z.log2 dx - 1) * 30103) / 100000 - 2)%Z.

Record shortest := { sh_s : Z; sh_n : Z }.

(** Number::toString step 5: the least [k] and the [s], [n] with
    [10^(k-1) <= s < 10^k] whose value [s * 10^(n-k)] rounds to the
    number [m * 2^e]; of several [s], the closest, then the even one. *)
Fixpoint shortest_from (fuel : nat) (k : Z) (m : positive) (e : Z)
    (nx dx n0 : Z) : shortest :=
  let nt := if (0 <=? k - n0)%Z then (nx * 10 ^ (k - n0))%Z else nx in
  let dt := if (0 <=? k - n0)%Z then dx else (dx * 10 ^ (n0 - k))%Z in
  let lo := (nt / dt)%Z in
  let hi := (lo + 1)%Z in
  let ok c := SFeqb (dec_to_SF false c (n0 - k)) (S754_finite false m e) in
  let pick_hi :=
    if (hi =? 10 ^ k)%Z then {| sh_s := 1; sh_n := n0 + 1 |}
    else {| sh_s := hi; sh_n := n0 |} in
  let pick_lo := {| sh_s := lo; sh_n := n0 |} in
  match fuel with
  | O => pick_lo
  | S fuel' =>
      match ok lo, ok hi with
      | true, true =>
          match (2 * (nt mod dt) ?= dt)%Z with
          | Lt => pick_lo
          | Gt => pick_hi
          | Eq => if Z.even lo then pick_lo else pick_hi
          end
      | true, false => pick_lo
      | false, true => pick_hi
      | false, false => shortest_from fuel' (k + 1)%Z m e nx dx n0
      end
  end.

Definition shortest_digits (m : positive) (e : Z) : shortest :=
  let nx := if (0 <=? e)%Z then (Zpos m * 2 ^ e)%Z else Zpos m in
  let dx := if (0 <=? e)%Z then 1%Z else (2 ^ (- e))%Z in
  shortest_from 17 1 m e nx dx (dec_exponent nx dx).

Definition zeros (n : Z) : str := repeat c_zero (Z.to_nat n).

(** Number::toString steps 6 to 10. *)
Definition format_shortest (r : shortest) : str :=
  let ds := Z_digits (sh_s r) in
  let k := Z.of_nat (length ds) in
  let n := sh_n r in
  if (k <=? n)%Z && (n <=? 21)%Z then ds ++ zeros (n - k)
  else if (0 <? n)%Z && (n <=? 21)%Z then
    firstn (Z.to_nat n) ds ++ [c_dot] ++ skipn (Z.to_nat n) ds
  else if (-6 <? n)%Z && (n <=? 0)%Z then
    [c_zero; c_dot] ++ zeros (- n) ++ ds
  else
    let ex := (n - 1)%Z in
    let sg := if (ex <? 0)%Z then c_minus else c_plus in
    match ds with
    | [d] => [d; c_e; sg] ++ Z_digits (Z.abs ex)
    | d :: ds' => [d; c_dot] ++ ds' ++ [c_e; sg] ++ Z_digits (Z.abs ex)
    | [] => []
    end.

(** [String(x)], also the text of [x] in a template literal. *)
Definition Number_toString (x : number) : str :=
  match Prim2SF x with
  | S754_nan => lit "NaN"
  | S754_zero _ => lit "0"
  | S754_infinity false => lit "Infinity"
  | S754_infinity true => lit "-Infinity"
  | S754_finite sg m e =>
      (if sg then [c_minus] else []) ++ format_shortest (shortest_digits m e)
  end.

End Num.

Import Num.

(* ================================================================== *)
(** * Errors and fallible calls *)
(* ================================================================== *)

(** What a call can throw: middleware/error.ts gives
    [LocationNotFoundError] (a [CustomError] with status 404), the
    services throw plain [Error]s, and axios rejects with an error that
    carries the HTTP status of the response, if there was one. *)
Inductive exn : Type :=
| AxiosError (status : option N) (msg : str)
| LocationNotFoundError (location : str)
| Error (msg : str).

(** [error.message] *)
Definition message (e : exn) : str :=
  match e with
  | AxiosError _ m => m
  | LocationNotFoundError location => lit "Location not found: " ++ location
  | Error m => m
  end.

(** [axios.isAxiosError(error)] *)
Definition isAxiosError (e : exn) : bool :=
  match e with AxiosError _ _ => true | _ => false end.

(** [error.response?.status === code] *)
Definition has_status (e : exn) (code : N) : bool :=
  match e with
  | AxiosError (Some st) _ => (st =? code)%N
  | _ => false
  end.

(** The settled value of an awaited promise. *)
Inductive result (A : Type) : Type :=
| Ok (a : A)
| Throw (e : exn).

Arguments Ok {A} a.
Arguments Throw {A} e.

Definition bind {A B : Type} (m : result A) (k : A -> result B) : result B :=
  match m with
  | Ok a => k a
  | Throw e => Throw e
  end.

(** [try { m } catch (error) { h error }] *)
Definition try_catch {A : Type} (m : result A) (h : exn -> result A) : result A :=
  match m with
  | Ok a => Ok a
  | Throw e => h e
  end.

Notation "x <- m ;; k" := (bind m (fun x => k))
  (at level 61, m at next level, right associativity).

(* ================================================================== *)
(** * Data model *)
(* ================================================================== *)

(** [LocationInput.type] *)
Inductive LocationType : Type :=
| coordinates | zipcode | landmark | city | address | unknown.

Record LocationInput := {
  type : LocationType;
  value : str;
  normalized : str
}.

(** [ILocation.resolvedBy] (models/Record.ts) *)
Inductive ResolvedBy : Type :=
| by_coords | by_geocoding | by_zipcode | by_landmark.

(** [ILocation] (models/Record.ts) *)
Record ILocation := {
  name : str;
  country : str;
  admin1 : str;
  lat : number;
  lon : number;
  resolvedBy : ResolvedBy
}.

(** What [reverseGeocode] returns. *)
Record ReverseDetails := {
  rd_name : str;
  rd_country : str;
  rd_admin1 : str;
  rd_admin2 : option str;
  rd_admin3 : option str
}.

(** A hit of the Open-Meteo geocoding API. *)
Record OMHit := {
  om_name : option str;
  om_country : option str;
  om_admin1 : option str;
  om_admin2 : option str;
  om_admin3 : option str;
  om_feature_code : option str;
  om_latitude : number;
  om_longitude : number
}.

(** [response.data] of the Open-Meteo geocoding API. *)
Record OMData := { om_results : option (list OMHit) }.

(** [result.address] of a Nominatim search hit. *)
Record NomAddress := {
  na_city : option str;
  na_town : option str;
  na_village : option str;
  na_hamlet : option str;
  na_municipality : option str;
  na_state : option str;
  na_province : option str;
  na_region : option str;
  na_country : option str
}.

(** A hit of the Nominatim search API. *)
Record NomHit := {
  nh_address : option NomAddress;
  nh_display_name : option str;
  nh_lat : str;
  nh_lon : str
}.

(** [ZipCodeBaseResult] *)
Record ZipCodeBaseResult := {
  postal_code : str;
  country_code : str;
  latitude : str;
  longitude : str;
  zb_city : str;
  zb_state : str;
  city_en : str;
  state_en : str;
  state_code : str;
  province : str;
  province_code : str
}.

(** [ZipCodeBaseResponse]: [results] maps a postal code to its
    candidates. *)
Record ZipCodeBaseResponse := {
  zb_results : option (list (str * list ZipCodeBaseResult))
}.

(** The language's case mappings follow the Unicode tables; they are
    taken as given. *)
Class Runtime := {
  toLowerCase : str -> str;
  toUpperCase : str -> str
}.

(** The outside world of one resolution: the configured API key and
    the answer of every provider to every request.  The module
    nominatim.service.ts is not among the sources:
    [nominatim_reverse lat lon] stands for the calls of the first [try]
    block of [reverseGeocode] into it, that is [reverseGeocode(lat, lon)]
    followed by the name builders on its result; it throws, finds
    nothing, or yields the assembled fields. *)
Record Providers := {
  ZIPCODEBASE_API_KEY : str;
  openMeteo_search_name : str -> N -> result OMData;
  openMeteo_search_coords : number -> number -> N -> result OMData;
  nominatim_search : str -> result (option (list NomHit));
  zipCodeBase_search : str -> result ZipCodeBaseResponse;
  nominatim_reverse : number -> number -> result (option ReverseDetails)
}.

(* ================================================================== *)
(** * GeocodingService: classification and normalizers *)
(* ================================================================== *)

(** [-?\d+\.?\d*] *)
Definition decimal_number : re :=
  seqs [Opt (Chr c_minus); Plus digit; Opt (Chr c_dot); Star digit].

(** [/^-?\d+\.?\d*,\s*-?\d+\.?\d*$/] *)
Definition decimalPattern : re :=
  seqs [decimal_number; Chr c_comma; Star space; decimal_number].

(** [\d+°\d+['′]\d*\.?\d*[Q″]?[NS]] and its [EW] twin, under the [i]
    flag; here and below Q stands for the double quote character. *)
Definition dms_half (dir : list char) : re :=
  seqs [Plus digit; Chr c_degree; Plus digit; OneOf [c_apostrophe; c_prime];
        Star digit; Opt (Chr c_dot); Star digit; Opt (OneOf [c_quote; c_dprime]);
        letter_i dir].

(** [/^\d+°\d+['′]\d*\.?\d*[Q″]?[NS]\s+\d+°\d+['′]\d*\.?\d*[Q″]?[EW]$/i] *)
Definition dmsPattern : re :=
  seqs [dms_half (lit "NS"); Plus space; dms_half (lit "EW")].

(** [/^(NUM)\s*[,;]\s*(NUM)$/] where NUM is [-?\d+\.?\d*] *)
Definition altPattern : re :=
  seqs [Grp decimal_number; Star space; OneOf [c_comma; c_semicolon];
        Star space; Grp decimal_number].

(** [isCoordinates] *)
Definition isCoordinates (input : str) : bool :=
  test decimalPattern input || test dmsPattern input || test altPattern input.

(** [[A-Z]] under the [i] flag. *)
Definition alpha_i : re :=
  Cls (fun c => (65 <=? upper_of c)%N && (upper_of c <=? 90)%N).

(** [[A-Z\d]] under the [i] flag. *)
Definition alnum_i : re :=
  Cls (fun c => ((65 <=? upper_of c)%N && (upper_of c <=? 90)%N) || isDigit c).

(** [/^\d{5}(-\d{4})?$/] *)
Definition usZip : re :=
  seqs [Times 5 digit; Opt (Grp (Seq (Chr c_minus) (Times 4 digit)))].

(** [/^\d{5}-?\d{3}$/] *)
Definition brCep : re :=
  seqs [Times 5 digit; Opt (Chr c_minus); Times 3 digit].

(** [/^[A-Z]{1,2}\d[A-Z\d]?\s?\d[A-Z]{2}$/i] *)
Definition ukPostcode : re :=
  seqs [Range 1 2 alpha_i; digit; Opt alnum_i; Opt space; digit;
        Times 2 alpha_i].

(** [/^[A-Z]\d[A-Z]\s?\d[A-Z]\d$/i] *)
Definition caPostcode : re :=
  seqs [alpha_i; digit; alpha_i; Opt space; digit; alpha_i; digit].

(** [/^\d{5,10}$/] *)
Definition genericZip : re := Range 5 10 digit.

(** [isZipCode] *)
Definition isZipCode (input : str) : bool :=
  test usZip input || test brCep input || test ukPostcode input
  || test caPostcode input || test genericZip input.

Definition landmarkKeywords : list str :=
  map lit
    ["airport"; "station"; "hospital"; "university"; "college"; "school";
     "museum"; "park"; "plaza"; "square"; "mall"; "center"; "centre";
     "tower"; "bridge"; "monument"; "cathedral"; "church"; "temple";
     "stadium"; "arena"; "theater"; "theatre"; "cinema"; "hotel";
     "restaurant"; "cafe"; "bar"; "club"; "gym"; "library"]%string.

(** [isLandmark] *)
Definition isLandmark {RT : Runtime} (input : str) : bool :=
  let lowerInput := toLowerCase input in
  existsb (fun keyword => includes lowerInput keyword) landmarkKeywords.

(** [input.split(/\s+/)] : the pieces between maximal runs of white
    space; a run at either end leaves an empty piece there. *)
Fixpoint split_ws (in_sep : bool) (cur : str) (s : str) : list str :=
  match s with
  | [] => [rev cur]
  | c :: s' =>
      if isWhiteSpace c
      then (if in_sep then split_ws true cur s'
            else rev cur :: split_ws true [] s')
      else split_ws false (c :: cur) s'
  end.

(** [isCity] *)
Definition isCity (input : str) : bool :=
  let words := split_ws false [] input in
  (length words <=? 3)%nat
  && negb (search digit input)
  && forallb (fun word => (1 <? length word)%nat) words.

(** The pattern of [normalizeCoordinates] for the DMS form, with its
    eight groups. *)
Definition dms_groups (dir : list char) : re :=
  seqs [Grp (Plus digit); Chr c_degree; Grp (Plus digit);
        OneOf [c_apostrophe; c_prime];
        Grp (seqs [Star digit; Opt (Chr c_dot); Star digit]);
        Opt (OneOf [c_quote; c_dprime]); Grp (letter_i dir)].

Definition dmsMatchPattern : re :=
  seqs [dms_groups (lit "NS"); Plus space; dms_groups (lit "EW")].

(** [m[i]] for a group [i >= 1] of a match. *)
Definition group (m : caps) (i : nat) : str := nth (i - 1) m [].

(** [latSec || '0'] *)
Definition or_zero (s : str) : str := if truthy s then s else lit "0".

(** [normalizeCoordinates] *)
Definition normalizeCoordinates {RT : Runtime} (input : str) : str :=
  match full_match dmsMatchPattern input with
  | Some dmsMatch =>
      let latDeg := group dmsMatch 1 in
      let latMin := group dmsMatch 2 in
      let latSec := group dmsMatch 3 in
      let latDir := group dmsMatch 4 in
      let lonDeg := group dmsMatch 5 in
      let lonMin := group dmsMatch 6 in
      let lonSec := group dmsMatch 7 in
      let lonDir := group dmsMatch 8 in
      let lat := (parseFloat latDeg + parseFloat latMin / 60
                  + parseFloat (or_zero latSec) / 3600)%float in
      let lon := (parseFloat lonDeg + parseFloat lonMin / 60
                  + parseFloat (or_zero lonSec) / 3600)%float in
      let lat := if str_eqb (toUpperCase latDir) (lit "S") then (- lat)%float else lat in
      let lon := if str_eqb (toUpperCase lonDir) (lit "W") then (- lon)%float else lon in
      Number_toString lat ++ lit "," ++ Number_toString lon
  | None =>
      match full_match altPattern input with
      | Some altMatch => group altMatch 1 ++ lit "," ++ group altMatch 2
      | None => input
      end
  end.

(** [normalizeZipCode]: white space is removed; the second [replace]
    puts a dash where a dash was. *)
Definition normalizeZipCode (input : str) : str :=
  map (fun c => if char_eqb c c_minus then c_minus else c)
      (filter (fun c => negb (isWhiteSpace c)) input).

(** [detectLocationType] *)
Definition detectLocationType {RT : Runtime} (input : str) : LocationInput :=
  let trimmed := trim input in
  if isCoordinates trimmed then
    {| type := coordinates; value := trimmed;
       normalized := normalizeCoordinates trimmed |}
  else if isZipCode trimmed then
    {| type := zipcode; value := trimmed;
       normalized := normalizeZipCode trimmed |}
  else if isLandmark trimmed then
    {| type := landmark; value := trimmed; normalized := trimmed |}
  else if isCity trimmed then
    {| type := city; value := trimmed; normalized := trimmed |}
  else
    {| type := address; value := trimmed; normalized := trimmed |}.

(* ================================================================== *)
(** * ZipCodeBaseService *)
(* ================================================================== *)

(** [a.trim()] is truthy *)
Definition present (s : str) : bool := truthy s && truthy (trim s).

(** [normalizePostalCode] *)
Definition normalizePostalCode (postalCode : str) : str :=
  let cleaned := filter isDigit postalCode in
  if (length cleaned =? 8)%nat
  then firstn 5 cleaned ++ lit "-" ++ skipn 5 cleaned
  else cleaned.

(** [isAvailable] *)
Definition isAvailable (P : Providers) : bool := truthy (ZIPCODEBASE_API_KEY P).

(** [data.results[normalizedCode]] *)
Fixpoint lookup {A : Type} (k : str) (m : list (str * A)) : option A :=
  match m with
  | [] => None
  | (k', v) :: m' => if str_eqb k k' then Some v else lookup k m'
  end.

(** [searchPostalCode] *)
Definition searchPostalCode (P : Providers) (postalCode : str)
  : result (list ZipCodeBaseResult) :=
  if negb (truthy (ZIPCODEBASE_API_KEY P))
  then Throw (Error (lit "ZipCodeBase API key not configured"))
  else
    try_catch
      (let normalizedCode := normalizePostalCode postalCode in
       data <- zipCodeBase_search P normalizedCode ;;
       match zb_results data with
       | Some results =>
           match lookup normalizedCode results with
           | Some candidates => Ok candidates
           | None => Ok []
           end
       | None => Ok []
       end)
      (fun error =>
         if isAxiosError error then
           if has_status error 404 then Throw (LocationNotFoundError postalCode)
           else if has_status error 401
           then Throw (Error (lit "Invalid ZipCodeBase API key"))
           else if has_status error 429
           then Throw (Error (lit "ZipCodeBase API rate limit exceeded"))
           else Throw (Error (lit "ZipCodeBase API error: " ++ message error))
         else Throw error).

(** [calculateResultScore] *)
Definition calculateResultScore (result : ZipCodeBaseResult) : Z :=
  let score := 0%Z in
  let score := if present (zb_city result) then (score + 10)%Z else score in
  let score := if present (zb_state result) then (score + 8)%Z else score in
  let score := if present (province result) then (score + 5)%Z else score in
  let score :=
    if truthy (latitude result) && truthy (longitude result) then
      let lat := parseFloat (latitude result) in
      let lon := parseFloat (longitude result) in
      if negb (isNaN lat) && negb (isNaN lon)
         && ge lat (-90) && le lat 90 && ge lon (-180) && le lon 180
      then (score + 15)%Z else score
    else score in
  let score := if present (country_code result) then (score + 3)%Z else score in
  score.

(** [Array.prototype.sort] with a comparison function: a stable sort;
    [x] goes behind [y] only when [cmp x y > 0]. *)
Fixpoint sort_insert {A : Type} (cmp : A -> A -> Z) (x : A) (l : list A) : list A :=
  match l with
  | [] => [x]
  | y :: l' => if (0 <? cmp x y)%Z then y :: sort_insert cmp x l' else x :: l
  end.

Fixpoint sort {A : Type} (cmp : A -> A -> Z) (l : list A) : list A :=
  match l with
  | [] => []
  | x :: l' => sort_insert cmp x (sort cmp l')
  end.

Record Scored := { sc_result : ZipCodeBaseResult; sc_score : Z }.

(** [getBestResult] *)
Definition getBestResult (results : list ZipCodeBaseResult)
  : option ZipCodeBaseResult :=
  match results with
  | [] => None
  | [only] => Some only
  | _ =>
      let scoredResults :=
        map (fun result => {| sc_result := result;
                              sc_score := calculateResultScore result |})
            results in
      match sort (fun a b => (sc_score b - sc_score a)%Z) scoredResults with
      | best :: _ => Some (sc_result best)
      | [] => None
      end
  end.

(* ================================================================== *)
(** * FallbackGeocodeService *)
(* ================================================================== *)

Definition field (a : option NomAddress) (f : NomAddress -> option str)
  : option str :=
  match a with
  | Some a' => f a'
  | None => None
  end.

(** [x !== parts[0]] for a string [x] *)
Definition differs_from_first (x : str) (parts : list str) : bool :=
  match parts with
  | p :: _ => negb (str_eqb x p)
  | [] => true
  end.

Definition unwrap (o : option str) : str :=
  match o with Some s => s | None => [] end.

(** [buildLocationName] of the fallback service *)
Definition fb_buildLocationName (result : NomHit) : str :=
  let address := nh_address result in
  let parts : list str :=
    if truthy_opt (field address na_city) then [unwrap (field address na_city)]
    else if truthy_opt (field address na_town) then [unwrap (field address na_town)]
    else if truthy_opt (field address na_village) then [unwrap (field address na_village)]
    else if truthy_opt (field address na_hamlet) then [unwrap (field address na_hamlet)]
    else if truthy_opt (field address na_municipality)
    then [unwrap (field address na_municipality)]
    else if truthy_opt (nh_display_name result) then
      match split_char c_comma (unwrap (nh_display_name result)) with
      | first :: _ => [trim first]
      | [] => []
      end
    else [] in
  let parts :=
    if truthy_opt (field address na_state)
       && differs_from_first (unwrap (field address na_state)) parts
    then parts ++ [unwrap (field address na_state)]
    else if truthy_opt (field address na_province)
            && differs_from_first (unwrap (field address na_province)) parts
    then parts ++ [unwrap (field address na_province)]
    else parts in
  let parts :=
    if truthy_opt (field address na_country)
    then parts ++ [unwrap (field address na_country)]
    else parts in
  match parts with
  | _ :: _ => join (lit ", ") parts
  | [] => or_else (nh_display_name result) (lit "Unknown Location")
  end.

(** [getCountryName] of the fallback service *)
Definition fb_getCountryName (result : NomHit) : str :=
  or_else (field (nh_address result) na_country) (lit "Unknown").

(** [getStateName] of the fallback service *)
Definition fb_getStateName (result : NomHit) : str :=
  let address := nh_address result in
  if truthy_opt (field address na_state) then unwrap (field address na_state)
  else if truthy_opt (field address na_province)
  then unwrap (field address na_province)
  else or_else (field address na_region) (lit "Unknown").

(** [searchLocation]: the [catch] logs and rethrows. *)
Definition searchLocation (P : Providers) (query : str) : result ILocation :=
  try_catch
    (data <- nominatim_search P query ;;
     match data with
     | None | Some [] => Throw (Error (lit "No results found"))
     | Some (result :: _) =>
         Ok {| name := fb_buildLocationName result;
               country := fb_getCountryName result;
               admin1 := fb_getStateName result;
               lat := parseFloat (nh_lat result);
               lon := parseFloat (nh_lon result);
               resolvedBy := by_geocoding |}
     end)
    (fun error => Throw error).

Definition corrections : list (str * list str) :=
  map (fun kv => (lit (fst kv), map lit (snd kv)))
    [("tokio", ["tokyo"; "tokyo japan"]);
     ("tokyo", ["tokyo japan"; "tokyo, japan"]);
     ("japan", ["japan"; "japan country"]);
     ("paris", ["paris france"; "paris, france"]);
     ("london", ["london england"; "london uk"; "london, england"]);
     ("new york", ["new york city"; "new york, ny"; "new york city, ny"]);
     ("los angeles", ["los angeles, ca"; "los angeles california"]);
     ("sao paulo", ["sao paulo brazil"; "sao paulo, brazil"]);
     ("rio de janeiro", ["rio de janeiro brazil"; "rio de janeiro, brazil"])]%string.

Definition suffixes : list str :=
  map lit ["city"; "town"; "village"; "municipality"]%string.

(** [generateQueryVariations] *)
Definition generateQueryVariations {RT : Runtime} (query : str) : list str :=
  let lowerQuery := toLowerCase query in
  let variations := [query] in
  let variations :=
    fold_left (fun vs kv =>
                 if includes lowerQuery (fst kv) then vs ++ snd kv else vs)
              corrections variations in
  let variations :=
    fold_left (fun vs suffix =>
                 if negb (includes lowerQuery suffix)
                 then vs ++ [query ++ lit " " ++ suffix] else vs)
              suffixes variations in
  dedupe variations.

(** The loop of [searchWithVariations] over the remaining queries. *)
Fixpoint try_queries (P : Providers) (originalQuery : str) (queries : list str)
  : result ILocation :=
  match queries with
  | [] => Throw (Error (lit "No fallback location found for: " ++ originalQuery))
  | query :: rest =>
      match searchLocation P query with
      | Ok result =>
          if negb (str_eqb (name result) (lit "Unknown Location"))
          then Ok result
          else try_queries P originalQuery rest
      | Throw _ => try_queries P originalQuery rest
      end
  end.

(** [searchWithVariations] *)
Definition searchWithVariations {RT : Runtime} (P : Providers) (originalQuery : str)
  : result ILocation :=
  try_queries P originalQuery (generateQueryVariations originalQuery).

(* ================================================================== *)
(** * GeocodingService: the provider chains *)
(* ================================================================== *)

Definition countryMap : list (str * str) :=
  map (fun kv => (lit (fst kv), lit (snd kv)))
    [("BR", "Brazil"); ("US", "United States"); ("CA", "Canada");
     ("GB", "United Kingdom"); ("FR", "France"); ("DE", "Germany");
     ("IT", "Italy"); ("ES", "Spain"); ("PT", "Portugal"); ("JP", "Japan");
     ("CN", "China"); ("IN", "India"); ("AU", "Australia"); ("MX", "Mexico");
     ("AR", "Argentina"); ("CL", "Chile"); ("CO", "Colombia"); ("PE", "Peru");
     ("VE", "Venezuela"); ("UY", "Uruguay"); ("PY", "Paraguay");
     ("BO", "Bolivia"); ("EC", "Ecuador"); ("GY", "Guyana");
     ("SR", "Suriname"); ("GF", "French Guiana")]%string.

(** [getCountryName] *)
Definition getCountryName {RT : Runtime} (countryCode : str) : str :=
  or_else (lookup (toUpperCase countryCode) countryMap) countryCode.

(** [buildLocationNameFromZipCodeBase] *)
Definition buildLocationNameFromZipCodeBase {RT : Runtime} (result : ZipCodeBaseResult)
  : str :=
  let parts : list str := [] in
  let parts := if present (zb_city result) then parts ++ [zb_city result] else parts in
  let parts :=
    if present (zb_state result) && negb (str_eqb (zb_state result) (zb_city result))
    then parts ++ [zb_state result] else parts in
  let parts :=
    if present (province result)
       && negb (str_eqb (province result) (zb_city result))
       && negb (str_eqb (province result) (zb_state result))
    then parts ++ [province result] else parts in
  let parts :=
    if present (country_code result)
    then parts ++ [getCountryName (country_code result)] else parts in
  match parts with
  | _ :: _ => join (lit ", ") parts
  | [] => postal_code result
  end.

(** [`${lat},${lon}`] *)
Definition coords_text (lat lon : number) : str :=
  Number_toString lat ++ lit "," ++ Number_toString lon.

(** The last resort of the reverse chain: the coordinates as the name. *)
Definition echo (lat lon : number) : ReverseDetails :=
  {| rd_name := coords_text lat lon;
     rd_country := lit "Unknown";
     rd_admin1 := lit "Unknown";
     rd_admin2 := None;
     rd_admin3 := None |}.

Definition no_results (data : OMData) : bool :=
  match om_results data with
  | None | Some [] => true
  | Some (_ :: _) => false
  end.

(** [fallbackReverseGeocode] *)
Definition fallbackReverseGeocode (P : Providers) (lat lon : number)
  : result ReverseDetails :=
  match
    try_catch
      (data <- openMeteo_search_name P (coords_text lat lon) 3 ;;
       match om_results data with
       | Some (result :: _) =>
           Ok (Some {| rd_name := or_else (om_name result) (coords_text lat lon);
                       rd_country := or_else (om_country result) (lit "Unknown");
                       rd_admin1 := or_else (om_admin1 result) (lit "Unknown");
                       rd_admin2 := None;
                       rd_admin3 := None |})
       | _ => Ok None
       end)
      (fun _ => Ok None)
  with
  | Ok (Some found) => Ok found
  | Ok None => Ok (echo lat lon)
  | Throw e => Throw e
  end.

Definition opt_str_eqb (a b : option str) : bool :=
  match a, b with
  | Some x, Some y => str_eqb x y
  | None, None => true
  | _, _ => false
  end.

Definition is_populated_place (result : OMHit) : bool :=
  opt_str_eqb (om_feature_code result) (Some (lit "PPL"))
  || opt_str_eqb (om_feature_code result) (Some (lit "PPLA"))
  || opt_str_eqb (om_feature_code result) (Some (lit "PPLA2")).

(** The loop of [reverseGeocode] that looks for a city or town. *)
Definition pick_best (first : OMHit) (results : list OMHit) : OMHit :=
  match find is_populated_place results with
  | Some result => result
  | None => first
  end.

Definition push_if (b : bool) (x : option str) (parts : list str) : list str :=
  if b then parts ++ [unwrap x] else parts.

(** [reverseGeocode] *)
Definition reverseGeocode (P : Providers) (lat lon : number)
  : result ReverseDetails :=
  match
    try_catch (nominatim_reverse P lat lon) (fun _ => Ok None)
  with
  | Ok (Some nominatimResult) => Ok nominatimResult
  | Throw e => Throw e
  | Ok None =>
      try_catch
        (data <- openMeteo_search_coords P lat lon 5 ;;
         match om_results data with
         | Some (first :: rest) =>
             let bestResult := pick_best first (first :: rest) in
             let locationParts : list str := [] in
             let locationParts :=
               push_if (truthy_opt (om_name bestResult))
                       (om_name bestResult) locationParts in
             let locationParts :=
               push_if (truthy_opt (om_admin2 bestResult)
                        && negb (opt_str_eqb (om_admin2 bestResult) (om_name bestResult))
                        && negb (opt_str_eqb (om_admin2 bestResult) (om_admin1 bestResult)))
                       (om_admin2 bestResult) locationParts in
             let locationParts :=
               push_if (truthy_opt (om_admin1 bestResult))
                       (om_admin1 bestResult) locationParts in
             let locationParts :=
               push_if (truthy_opt (om_country bestResult))
                       (om_country bestResult) locationParts in
             let locationName :=
               match locationParts with
               | _ :: _ => join (lit ", ") locationParts
               | [] => coords_text lat lon
               end in
             Ok {| rd_name := locationName;
                   rd_country := or_else (om_country bestResult) (lit "Unknown");
                   rd_admin1 := or_else (om_admin1 bestResult) (lit "Unknown");
                   rd_admin2 := om_admin2 bestResult;
                   rd_admin3 := om_admin3 bestResult |}
         | _ => fallbackReverseGeocode P lat lon
         end)
        (fun _ => Ok (echo lat lon))
  end.

(** [coords[i]] *)
Definition item (coords : list str) (i : nat) : option str := nth_error coords i.

Definition invalid_coordinates : exn :=
  Error (lit "Invalid coordinates. Latitude must be between -90 and 90, longitude between -180 and 180.").

(** [resolveCoordinates] *)
Definition resolveCoordinates (P : Providers) (locationInput : LocationInput)
  : result ILocation :=
  let coords := split_char c_comma (normalized locationInput) in
  let lat := parseFloat_opt (item coords 0) in
  let lon := parseFloat_opt (item coords 1) in
  if lt lat (-90) || gt lat 90 || lt lon (-180) || gt lon 180
  then Throw invalid_coordinates
  else
    try_catch
      (locationDetails <- reverseGeocode P lat lon ;;
       Ok {| name := rd_name locationDetails;
             country := rd_country locationDetails;
             admin1 := rd_admin1 locationDetails;
             lat := lat;
             lon := lon;
             resolvedBy := by_coords |})
      (fun _ =>
         Ok {| name := coords_text lat lon;
               country := lit "Unknown";
               admin1 := lit "Unknown";
               lat := lat;
               lon := lon;
               resolvedBy := by_coords |}).

(** The second half of [resolveZipCode]: the Open-Meteo search. *)
Definition zip_openMeteo (P : Providers) (locationInput : LocationInput)
  : result ILocation :=
  try_catch
    (data <- openMeteo_search_name P (normalized locationInput) 1 ;;
     match om_results data with
     | Some (result :: _) =>
         Ok {| name := or_else (om_name result) (value locationInput);
               country := or_else (om_country result) (lit "Unknown");
               admin1 := or_else (om_admin1 result) (lit "Unknown");
               lat := om_latitude result;
               lon := om_longitude result;
               resolvedBy := by_zipcode |}
     | _ => Throw (LocationNotFoundError (value locationInput))
     end)
    (fun error =>
       if isAxiosError error then
         if has_status error 404 || has_status error 400
         then Throw (LocationNotFoundError (value locationInput))
         else Throw (Error (lit "Geocoding service error: " ++ message error))
       else Throw error).

(** The first half of [resolveZipCode]: the ZipCodeBase lookup, [None]
    when control falls through to the Open-Meteo search. *)
Definition zip_primary {RT : Runtime} (P : Providers) (locationInput : LocationInput)
  : option ILocation :=
  if isAvailable P then
    match searchPostalCode P (normalized locationInput) with
    | Ok results =>
        match getBestResult results with
        | Some bestResult =>
            Some {| name := buildLocationNameFromZipCodeBase bestResult;
                    country := getCountryName (country_code bestResult);
                    admin1 := if truthy (zb_state bestResult) then zb_state bestResult
                              else if truthy (state_en bestResult)
                              then state_en bestResult
                              else lit "Unknown";
                    lat := parseFloat (latitude bestResult);
                    lon := parseFloat (longitude bestResult);
                    resolvedBy := by_zipcode |}
        | None => None
        end
    | Throw _ => None
    end
  else None.

(** [resolveZipCode] *)
Definition resolveZipCode {RT : Runtime} (P : Providers) (locationInput : LocationInput)
  : result ILocation :=
  match zip_primary P locationInput with
  | Some location => Ok location
  | None => zip_openMeteo P locationInput
  end.

(** [resolveTextLocation] *)
Definition resolveTextLocation {RT : Runtime} (P : Providers) (locationInput : LocationInput)
  : result ILocation :=
  try_catch
    (data <- openMeteo_search_name P (normalized locationInput) 1 ;;
     match om_results data with
     | Some (result :: _) =>
         Ok {| name := or_else (om_name result) (lit "Unknown");
               country := or_else (om_country result) (lit "Unknown");
               admin1 := or_else (om_admin1 result) (lit "Unknown");
               lat := om_latitude result;
               lon := om_longitude result;
               resolvedBy := match type locationInput with
                             | landmark => by_landmark
                             | _ => by_geocoding
                             end |}
     | _ =>
         try_catch
           (searchWithVariations P (value locationInput))
           (fun fallbackError =>
              Throw (LocationNotFoundError (value locationInput)))
     end)
    (fun error => Throw (Error (lit "Geocoding service error: " ++ message error))).

(** [resolveByType] *)
Definition resolveByType {RT : Runtime} (P : Providers) (locationInput : LocationInput)
  : result ILocation :=
  match type locationInput with
  | coordinates => resolveCoordinates P locationInput
  | zipcode => resolveZipCode P locationInput
  | landmark | city | address | unknown => resolveTextLocation P locationInput
  end.

(** The [type] that a hint string gives the input; a string outside
    the union is dispatched, and tagged, as [unknown] is. *)
Definition type_of_hint (locationType : str) : LocationType :=
  if str_eqb locationType (lit "coordinates") then coordinates
  else if str_eqb locationType (lit "zipcode") then zipcode
  else if str_eqb locationType (lit "landmark") then landmark
  else if str_eqb locationType (lit "city") then city
  else if str_eqb locationType (lit "address") then address
  else unknown.

(** [resolveLocation] *)
Definition resolveLocation {RT : Runtime} (P : Providers) (input : str)
    (locationType : option str) : result ILocation :=
  let trimmedInput := trim input in
  if truthy_opt locationType && negb (str_eqb (unwrap locationType) (lit "auto"))
  then
    let ty := type_of_hint (unwrap locationType) in
    let locationInput :=
      {| type := ty; value := trimmedInput;
         normalized :=
           match ty with
           | coordinates => normalizeCoordinates trimmedInput
           | zipcode => normalizeZipCode trimmedInput
           | _ => trimmedInput
           end |} in
    resolveByType P locationInput
  else resolveByType P (detectLocationType trimmedInput).

(* ================================================================== *)
(** * Outcomes of provider calls, and sample worlds *)
(* ================================================================== *)

(** A forward-geocoder call that is of no use: it threw, or its answer
    has no results. *)
Definition om_nothing (r : result OMData) : Prop :=
  match r with
  | Ok data => no_results data = true
  | Throw _ => True
  end.

(** The detailed reverse geocoder is of no use: it threw or found
    nothing. *)
Definition reverse_nothing (r : result (option ReverseDetails)) : Prop :=
  match r with
  | Ok (Some _) => False
  | _ => True
  end.

(** A query of the variation fallback fails: [searchLocation] throws,
    or the name it builds is the placeholder. *)
Definition query_fails (P : Providers) (query : str) : Prop :=
  match searchLocation P query with
  | Ok result => name result = lit "Unknown Location"
  | Throw _ => True
  end.

(** The latitude and longitude that [resolveCoordinates] parses. *)
Definition parsed_lat (li : LocationInput) : number :=
  parseFloat_opt (item (split_char c_comma (normalized li)) 0).

Definition parsed_lon (li : LocationInput) : number :=
  parseFloat_opt (item (split_char c_comma (normalized li)) 1).

(** The postal score in the words of the specification: 15 for
    coordinates that parse as numbers within range, 10 for a city, 8
    for a state, 5 for a province, 3 for a country code. *)
Definition has_valid_coordinates (result : ZipCodeBaseResult) : bool :=
  let lat := parseFloat (latitude result) in
  let lon := parseFloat (longitude result) in
  negb (isNaN lat) && negb (isNaN lon)
  && ge lat (-90) && le lat 90 && ge lon (-180) && le lon 180.

Definition weight (b : bool) (w : Z) : Z := if b then w else 0%Z.

Definition spec_score (result : ZipCodeBaseResult) : Z :=
  (weight (has_valid_coordinates result) 15
   + weight (present (zb_city result)) 10
   + weight (present (zb_state result)) 8
   + weight (present (province result)) 5
   + weight (present (country_code result)) 3)%Z.

(** [a] has every scored field that [b] has. *)
Definition at_least_as_complete (a b : ZipCodeBaseResult) : Prop :=
  (has_valid_coordinates b = true -> has_valid_coordinates a = true)
  /\ (present (zb_city b) = true -> present (zb_city a) = true)
  /\ (present (zb_state b) = true -> present (zb_state a) = true)
  /\ (present (province b) = true -> present (province a) = true)
  /\ (present (country_code b) = true -> present (country_code a) = true).

Definition candidate (city state prov cc la lo : string) : ZipCodeBaseResult :=
  {| postal_code := lit "01310-100"; country_code := lit cc;
     latitude := lit la; longitude := lit lo;
     zb_city := lit city; zb_state := lit state;
     city_en := lit city; state_en := lit state; state_code := [];
     province := lit prov; province_code := [] |}.

(** [validateCoordinates] *)
Definition validateCoordinates (lat lon : number) : bool :=
  ge lat (-90) && le lat 90 && ge lon (-180) && le lon 180.

(** ASCII case mappings: what the language's mappings do on ASCII
    text. *)
Definition lower_of (c : char) : char :=
  if ((65 <=? c)%N && (c <=? 90)%N) then (c + 32)%N else c.

Definition asciiRT : Runtime :=
  {| toLowerCase := map lower_of; toUpperCase := map upper_of |}.

Definition no_hit : OMData := {| om_results := Some [] |}.

(** No API key, and no provider knows anything. *)
Definition silent : Providers :=
  {| ZIPCODEBASE_API_KEY := [];
     openMeteo_search_name := fun _ _ => Ok no_hit;
     openMeteo_search_coords := fun _ _ _ => Ok no_hit;
     nominatim_search := fun _ => Ok (Some []);
     zipCodeBase_search := fun _ => Ok {| zb_results := None |};
     nominatim_reverse := fun _ _ => Ok None |}.

Definition too_many_requests : exn :=
  AxiosError (Some 429%N) (lit "Request failed with status code 429").

(** The detailed reverse geocoder and the last forward search are
    rate-limited; the search by coordinates finds nothing. *)
Definition rate_limited : Providers :=
  {| ZIPCODEBASE_API_KEY := [];
     openMeteo_search_name := fun _ _ => Throw too_many_requests;
     openMeteo_search_coords := fun _ _ _ => Ok no_hit;
     nominatim_search := fun _ => Throw too_many_requests;
     zipCodeBase_search := fun _ => Throw too_many_requests;
     nominatim_reverse := fun _ _ => Throw too_many_requests |}.

Definition new_york : NomHit :=
  {| nh_address :=
       Some {| na_city := Some (lit "New York"); na_town := None;
               na_village := None; na_hamlet := None; na_municipality := None;
               na_state := Some (lit "New York"); na_province := None;
               na_region := None; na_country := Some (lit "United States") |};
     nh_display_name := Some (lit "Central Park, New York, United States");
     nh_lat := lit "40.7825"; nh_lon := lit "-73.9655" |}.

(** The primary geocoder finds nothing; the search behind the
    variation fallback knows one place. *)
Definition fallback_only : Providers :=
  {| ZIPCODEBASE_API_KEY := [];
     openMeteo_search_name := fun _ _ => Ok no_hit;
     openMeteo_search_coords := fun _ _ _ => Ok no_hit;
     nominatim_search := fun _ => Ok (Some [new_york]);
     zipCodeBase_search := fun _ => Ok {| zb_results := None |};
     nominatim_reverse := fun _ _ => Ok None |}.

Definition schenectady : OMHit :=
  {| om_name := Some (lit "Schenectady"); om_country := Some (lit "United States");
     om_admin1 := Some (lit "New York"); om_admin2 := None; om_admin3 := None;
     om_feature_code := Some (lit "PPL");
     om_latitude := 42.8142; om_longitude := -73.9396 |}.

(** No API key; the forward geocoder knows one place. *)
Definition keyless : Providers :=
  {| ZIPCODEBASE_API_KEY := [];
     openMeteo_search_name := fun _ _ => Ok {| om_results := Some [schenectady] |};
     openMeteo_search_coords := fun _ _ _ => Ok no_hit;
     nominatim_search := fun _ => Ok (Some []);
     zipCodeBase_search := fun _ => Ok {| zb_results := None |};
     nominatim_reverse := fun _ _ => Ok None |}.

(** The DMS text 23°33'1.8 S 46°37'59.9 W, with double primes written
    as the double quote character after the seconds. *)
Definition dms_sample : str :=
  lit "23" ++ [c_degree] ++ lit "33'1.8" ++ [c_quote] ++ lit "S 46"
  ++ [c_degree] ++ lit "37'59.9" ++ [c_quote] ++ lit "W".

Definition text_input (ty : LocationType) (s : string) : LocationInput :=
  {| type := ty; value := lit s; normalized := lit s |}.

(* ================================================================== *)
(** * Character classes and scores used in the statements *)
(* ================================================================== *)

Definition by_score (a b : Scored) : Z := (sc_score b - sc_score a)%Z.

Definition scored (result : ZipCodeBaseResult) : Scored :=
  {| sc_result := result; sc_score := calculateResultScore result |}.

(** The characters of a decimal number of the patterns. *)
Definition num_char (c : char) : bool :=
  isDigit c || char_eqb c_minus c || char_eqb c_dot c.

(** A character that is no white space, no semicolon and no degree
    sign. *)
Definition safe_char (c : char) : bool :=
  negb (isWhiteSpace c) && negb (char_eqb c c_semicolon)
  && negb (char_eqb c c_degree).

(** The characters [Number_toString] writes: digits, sign, point,
    exponent mark, and the letters of NaN and Infinity. *)
Definition out_char (c : char) : bool :=
  isDigit c || existsb (char_eqb c) (lit "-.+eNaInfity").

(** A digit or a dash. *)
Definition zip_char (c : char) : bool := isDigit c || char_eqb c_minus c.

(* ================================================================== *)
(** * middleware/error.ts: the error handler *)
(* ================================================================== *)

(** An issue of a [ZodError]. *)
Record ZodIssue := {
  zi_path : list str;
  zi_message : str;
  zi_code : str
}.

(** A value of the [errors] object of a Mongoose validation error. *)
Record FieldError := {
  fe_path : str;
  fe_message : str
}.

(** What reaches [errorHandler], by the tests it makes: an instance of
    [ZodError], an instance of [CustomError], or any other error with
    its [name], numeric [code], [errors] and [message]. *)
Inductive Thrown : Type :=
| ZodError (errors : list ZodIssue)
| CustomError (statusCode : N) (msg : str)
| OtherError (ename : str) (code : option N) (errors : list FieldError) (msg : str).

Record Detail := {
  d_field : str;
  d_message : str;
  d_code : option str
}.

(** The body of the JSON answer, without the development-only stack. *)
Record ErrorResponse := {
  er_statusCode : N;
  er_message : str;
  er_details : option (list Detail)
}.

(** [errorHandler] *)
Definition errorHandler (error : Thrown) : ErrorResponse :=
  match error with
  | ZodError errors =>
      {| er_statusCode := 400;
         er_message := lit "Validation Error";
         er_details :=
           Some (map (fun err => {| d_field := join (lit ".") (zi_path err);
                                    d_message := zi_message err;
                                    d_code := Some (zi_code err) |})
                     errors) |}
  | CustomError statusCode msg =>
      {| er_statusCode := statusCode; er_message := msg; er_details := None |}
  | OtherError ename code errors msg =>
      if str_eqb ename (lit "MongoError")
         && match code with Some c => (c =? 11000)%N | None => false end
      then {| er_statusCode := 409;
              er_message := lit "Duplicate entry. This record already exists.";
              er_details := None |}
      else if str_eqb ename (lit "ValidationError")
      then {| er_statusCode := 400;
              er_message := lit "Validation Error";
              er_details :=
                Some (map (fun err => {| d_field := fe_path err;
                                         d_message := fe_message err;
                                         d_code := None |})
                          errors) |}
      else if str_eqb ename (lit "CastError")
      then {| er_statusCode := 400;
              er_message := lit "Invalid ID format";
              er_details := None |}
      else if includes msg (lit "Weather service error")
              || includes msg (lit "Geocoding service error")
              || includes msg (lit "Historical weather service error")
      then {| er_statusCode := 502; er_message := msg; er_details := None |}
      else if includes msg (lit "Location not found")
      then {| er_statusCode := 400; er_message := msg; er_details := None |}
      else if truthy msg
      then {| er_statusCode := 500; er_message := msg; er_details := None |}
      else {| er_statusCode := 500;
              er_message := lit "Internal Server Error";
              er_details := None |}
  end.

(** An error of the services as the handler sees it:
    [LocationNotFoundError] is a [CustomError] built with status 404;
    the others are no [CustomError] and carry no numeric code. *)
Definition as_thrown (e : exn) : Thrown :=
  match e with
  | LocationNotFoundError location =>
      CustomError 404 (lit "Location not found: " ++ location)
  | Error m => OtherError (lit "Error") None [] m
  | AxiosError _ m => OtherError (lit "AxiosError") None [] m
  end.

(** The provider call can only fail the way axios fails. *)
Definition axios_only {A : Type} (r : result A) : Prop :=
  match r with
  | Ok _ => True
  | Throw e => isAxiosError e = true
  end.

Definition not_found_response : exn :=
  AxiosError (Some 404%N) (lit "Request failed with status code 404").

(** An API key is configured; every provider answers 404. *)
Definition keyed_not_found : Providers :=
  {| ZIPCODEBASE_API_KEY := lit "k3y";
     openMeteo_search_name := fun _ _ => Throw not_found_response;
     openMeteo_search_coords := fun _ _ _ => Throw not_found_response;
     nominatim_search := fun _ => Throw not_found_response;
     zipCodeBase_search := fun _ => Throw not_found_response;
     nominatim_reverse := fun _ _ => Throw not_found_response |}.

Definition sao_paulo : OMHit :=
  {| om_name := Some (lit "Sao Paulo"); om_country := Some (lit "Brazil");
     om_admin1 := Some (lit "Sao Paulo"); om_admin2 := None; om_admin3 := None;
     om_feature_code := Some (lit "PPLA");
     om_latitude := -23.5475; om_longitude := -46.6361 |}.


(** The search by coordinates lists an airport before a city. *)
Definition airport : OMHit :=
  {| om_name := Some (lit "Congonhas Airport"); om_country := None;
     om_admin1 := None; om_admin2 := None; om_admin3 := None;
     om_feature_code := Some (lit "AIRP");
     om_latitude := -23.6261; om_longitude := -46.6564 |}.

Definition airport_first : Providers :=
  {| ZIPCODEBASE_API_KEY := [];
     openMeteo_search_name := fun _ _ => Ok no_hit;
     openMeteo_search_coords :=
       fun _ _ _ => Ok {| om_results := Some [airport; sao_paulo] |};
     nominatim_search := fun _ => Ok (Some []);
     zipCodeBase_search := fun _ => Ok {| zb_results := None |};
     nominatim_reverse := fun _ _ => Ok None |}.

(* ================================================================== *)
(** * The matcher against the declarative reading of a pattern *)
(* ================================================================== *)

Module RegexFacts.

Lemma flat_map_nil {A B : Type} (f : A -> list B) (l : list A) :
  (forall a, f a = []) -> flat_map f l = [].
Proof.
  intros Hf. induction l as [|a l IH]; simpl; [reflexivity|].
  now rewrite Hf, IH.
Qed.

Lemma star_loop_last step fuel s : In ([], s) (star_loop step fuel s).
Proof.
  destruct fuel; simpl; [now left|].
  apply in_or_app. right. now left.
Qed.

(** Fuel beyond the length of the input changes nothing. *)
Lemma star_loop_fuel step f1 :
  forall f2 s, (length s <= f1)%nat -> (length s <= f2)%nat ->
               star_loop step f1 s = star_loop step f2 s.
Proof.
  induction f1 as [|f1 IH]; intros f2 s H1 H2.
  - destruct s; [|simpl in H1; lia].
    destruct f2; simpl; [reflexivity|].
    rewrite flat_map_nil; [reflexivity|]. intros a. reflexivity.
  - destruct f2 as [|f2].
    + destruct s; [|simpl in H2; lia]. simpl.
      rewrite flat_map_nil; [reflexivity|]. intros a. reflexivity.
    + simpl. f_equal. apply flat_map_ext. intros x.
      destruct (Nat.ltb_spec (length (snd x)) (length s)); [|reflexivity].
      f_equal. apply IH; lia.
Qed.

Lemma star_loop_sound (r : re) step :
  (forall s c rest, In (c, rest) (step s) -> exists m, s = m ++ rest /\ Sem r m c) ->
  forall fuel s c rest,
    In (c, rest) (star_loop step fuel s) ->
    exists m, s = m ++ rest /\ Sem (Star r) m c.
Proof.
  intros Hstep. induction fuel as [|fuel IH]; intros s c rest Hin; simpl in Hin.
  - destruct Hin as [E|[]]. inversion E; subst. exists []. split; [reflexivity|constructor].
  - apply in_app_or in Hin. destruct Hin as [Hin|[E|[]]].
    + apply in_flat_map in Hin. destruct Hin as [[c1 s1] [Hx Hin]]. simpl in Hin.
      destruct (Nat.ltb_spec (length s1) (length s)) as [Hlt|]; [|contradiction].
      apply in_map_iff in Hin. destruct Hin as [[c2 s2] [E Hin]].
      unfold then_caps in E. simpl in E. inversion E; subst.
      destruct (Hstep _ _ _ Hx) as [m1 [E1 S1]].
      destruct (IH _ _ _ Hin) as [m2 [E2 S2]].
      exists (m1 ++ m2). split.
      * now rewrite <- app_assoc, <- E2.
      * constructor; auto. intros ->. simpl in E1. subst. lia.
    + inversion E; subst. exists []. split; [reflexivity|constructor].
Qed.

(** Every success of the matcher is a match of the pattern. *)
Lemma exec_sound (r : re) :
  forall s c rest, In (c, rest) (exec r s) -> exists m, s = m ++ rest /\ Sem r m c.
Proof.
  induction r as [|p|r1 IH1 r2 IH2|r1 IH1 r2 IH2|r IH|r IH];
    intros s c rest Hin; simpl in Hin.
  - destruct Hin as [E|[]]. inversion E; subst. exists []. split; [reflexivity|constructor].
  - destruct s as [|a s]; [contradiction|].
    destruct (p a) eqn:Hp; [|contradiction].
    destruct Hin as [E|[]]. inversion E; subst.
    exists [a]. split; [reflexivity|now constructor].
  - apply in_flat_map in Hin. destruct Hin as [[c1 s1] [Hx Hin]].
    apply in_map_iff in Hin. destruct Hin as [[c2 s2] [E Hin]].
    unfold then_caps in E. simpl in E. inversion E; subst.
    destruct (IH1 _ _ _ Hx) as [m1 [E1 S1]].
    destruct (IH2 _ _ _ Hin) as [m2 [E2 S2]].
    exists (m1 ++ m2). split.
    + now rewrite <- app_assoc, <- E2.
    + now constructor.
  - apply in_app_or in Hin. destruct Hin as [Hin|Hin].
    + destruct (IH1 _ _ _ Hin) as [m [E S1]]. exists m. split; [assumption|now apply SemAltL].
    + destruct (IH2 _ _ _ Hin) as [m [E S1]]. exists m. split; [assumption|now apply SemAltR].
  - eapply star_loop_sound; eauto.
  - apply in_map_iff in Hin. destruct Hin as [[c1 s1] [E Hin]].
    simpl in E. inversion E; subst.
    destruct (IH _ _ _ Hin) as [m [E1 S1]]. exists m. split; [assumption|].
    subst s. rewrite length_app, Nat.add_sub.
    rewrite firstn_app, Nat.sub_diag, firstn_all. simpl. rewrite app_nil_r.
    now constructor.
Qed.

(** Every match of the pattern is among the successes of the matcher. *)
Lemma exec_complete (r : re) m c :
  Sem r m c -> forall rest, In (c, rest) (exec r (m ++ rest)).
Proof.
  induction 1 as [|p a Hp|r1 r2 m1 m2 c1 c2 _ IH1 _ IH2|r1 r2 m c _ IH|r1 r2 m c _ IH
                  |r|r m1 m2 c1 c2 Hne _ IH1 _ IH2|r m c _ IH]; intros rest; simpl.
  - now left.
  - rewrite Hp. now left.
  - apply in_flat_map. exists (c1, m2 ++ rest). split.
    + rewrite <- app_assoc. apply IH1.
    + apply in_map_iff. exists (c2, rest). split; [reflexivity|apply IH2].
  - apply in_or_app. left. apply IH.
  - apply in_or_app. right. apply IH.
  - apply star_loop_last.
  - destruct m1 as [|a m1]; [congruence|]. simpl.
    apply in_or_app. left. apply in_flat_map.
    exists (c1, m2 ++ rest). split.
    + specialize (IH1 (m2 ++ rest)). simpl in IH1. now rewrite <- app_assoc.
    + simpl. rewrite !length_app.
      destruct (Nat.ltb_spec (length m2 + length rest)
                             (S (length m1 + length m2 + length rest))) as [_|Hge]; [|lia].
      apply in_map_iff. exists (c2, rest). split; [reflexivity|].
      specialize (IH2 rest). simpl in IH2.
      rewrite (star_loop_fuel _ (f2 := length (m2 ++ rest))); [assumption| |lia].
      rewrite !length_app. lia.
  - apply in_map_iff. exists (c, rest). split; [|apply IH].
    simpl. rewrite length_app, Nat.add_sub.
    rewrite firstn_app, Nat.sub_diag, firstn_all. simpl. now rewrite app_nil_r.
Qed.

Lemma filter_head {A : Type} (f : A -> bool) (l : list A) x xs :
  filter f l = x :: xs -> In x l /\ f x = true.
Proof.
  intros E. assert (Hin : In x (filter f l)) by (rewrite E; now left).
  now apply filter_In in Hin.
Qed.

Lemma full_match_sound r s c : full_match r s = Some c -> Sem r s c.
Proof.
  unfold full_match. intros E.
  destruct (filter at_end (exec r s)) as [|[c1 rest] xs] eqn:F; [discriminate|].
  inversion E; subst. simpl.
  apply filter_head in F. destruct F as [Hin Hend].
  unfold at_end in Hend. simpl in Hend. destruct rest; [|discriminate].
  apply exec_sound in Hin. destruct Hin as [m [Es S1]].
  rewrite app_nil_r in Es. now subst.
Qed.

Lemma test_sound r s : test r s = true -> exists c, Sem r s c.
Proof.
  unfold test. destruct (full_match r s) as [c|] eqn:E; [|discriminate].
  intros _. exists c. now apply full_match_sound.
Qed.

Lemma test_complete r s c : Sem r s c -> test r s = true.
Proof.
  intros S1. unfold test, full_match.
  pose proof (exec_complete S1 []) as Hin. rewrite app_nil_r in Hin.
  assert (Hf : In (c, []) (filter at_end (exec r s))) by (apply filter_In; now split).
  destruct (filter at_end (exec r s)); [contradiction|reflexivity].
Qed.

Lemma test_false r s : (forall c, ~ Sem r s c) -> test r s = false.
Proof.
  intros Hno. destruct (test r s) eqn:E; [|reflexivity].
  apply test_sound in E. destruct E as [c S1]. now apply Hno in S1.
Qed.

Lemma full_match_none r s : (forall c, ~ Sem r s c) -> full_match r s = None.
Proof.
  intros Hno. destruct (full_match r s) as [c|] eqn:E; [|reflexivity].
  apply full_match_sound in E. now apply Hno in E.
Qed.

(** A starred character class matches a run of that class. *)
Lemma sem_star_cls p m c :
  Sem (Star (Cls p)) m c -> c = [] /\ Forall (fun a => p a = true) m.
Proof.
  remember (Star (Cls p)) as r eqn:Er. intros S1.
  induction S1; try discriminate.
  - now split.
  - inversion Er; subst. destruct (IHS1_2 eq_refl) as [-> Hall].
    inversion S1_1; subst. split; [reflexivity|]. simpl. now constructor.
Qed.

Lemma star_cls_intro p m :
  Forall (fun a => p a = true) m -> Sem (Star (Cls p)) m [].
Proof.
  induction 1 as [|a m Ha _ IH]; [constructor|].
  change (a :: m) with ([a] ++ m). change (@nil str) with (@nil str ++ @nil str).
  constructor; [discriminate|now constructor|assumption].
Qed.

End RegexFacts.

Import RegexFacts.

Arguments lit : simpl never.

Lemma str_eqb_refl a : str_eqb a a = true.
Proof.
  induction a as [|x a IH]; simpl; [reflexivity|].
  unfold char_eqb. now rewrite N.eqb_refl.
Qed.

Lemma str_eqb_eq a b : str_eqb a b = true <-> a = b.
Proof.
  split; [|intros ->; apply str_eqb_refl].
  revert b. induction a as [|x a IH]; intros [|y b]; simpl; try discriminate; auto.
  intros H. apply andb_prop in H. destruct H as [H1 H2].
  apply N.eqb_eq in H1. apply IH in H2. now subst.
Qed.

(* ================================================================== *)
(** * Comparisons of numbers *)
(* ================================================================== *)

Lemma SFcompare_refl x : x <> S754_nan -> SFcompare x x = Some Eq.
Proof.
  destruct x as [s|s| |s m e]; intros Hx; simpl; try congruence.
  - now destruct s.
  - rewrite Z.compare_refl, Pos.compare_cont_refl. now destruct s.
Qed.

Lemma isNaN_spec x : isNaN x = true -> Prim2SF x = S754_nan.
Proof.
  unfold isNaN, is_nan. rewrite eqb_spec. unfold SFeqb. intros Hx.
  destruct (Prim2SF x) eqn:E; try reflexivity;
    rewrite SFcompare_refl in Hx by discriminate; discriminate.
Qed.

Lemma SFcompare_swap x y :
  SFcompare y x = option_map CompOpp (SFcompare x y).
Proof.
  destruct x as [s|s| |s m e], y as [s'|s'| |s' m' e']; simpl; try reflexivity;
    try (destruct s; reflexivity); try (destruct s'; reflexivity);
    try (destruct s, s'; reflexivity).
  destruct s, s'; simpl; try reflexivity;
    rewrite (Z.compare_antisym e e'); destruct (e ?= e')%Z; simpl; try reflexivity;
    now rewrite (Pos.compare_cont_antisym m m' Eq).
Qed.

(** Every comparison with NaN is false. *)
Lemma lt_nan_l x y : isNaN x = true -> lt x y = false.
Proof.
  intros Hx. unfold lt. rewrite ltb_spec, (isNaN_spec _ Hx). reflexivity.
Qed.

Lemma gt_nan_l x y : isNaN x = true -> gt x y = false.
Proof.
  intros Hx. unfold gt. rewrite ltb_spec, (isNaN_spec _ Hx).
  unfold SFltb. now destruct (Prim2SF y).
Qed.

Lemma ge_not_lt x y : ge x y = true -> lt x y = false.
Proof.
  unfold ge, lt. rewrite leb_spec, ltb_spec. unfold SFleb, SFltb.
  rewrite (SFcompare_swap (Prim2SF y) (Prim2SF x)).
  destruct (SFcompare (Prim2SF y) (Prim2SF x)) as [[]|]; simpl; congruence.
Qed.

Lemma le_not_gt x y : le x y = true -> gt x y = false.
Proof.
  unfold le, gt. rewrite leb_spec, ltb_spec. unfold SFleb, SFltb.
  rewrite (SFcompare_swap (Prim2SF x) (Prim2SF y)).
  destruct (SFcompare (Prim2SF x) (Prim2SF y)) as [[]|]; simpl; congruence.
Qed.

(* ================================================================== *)
(** * The reverse geocoder chain *)
(* ================================================================== *)

Lemma no_results_spec data :
  no_results data = true -> om_results data = None \/ om_results data = Some [].
Proof.
  unfold no_results. destruct (om_results data) as [[|h t]|]; auto. discriminate.
Qed.

Section ReverseChain.

Variable P : Providers.
Variables lat lon : number.

Lemma fallbackReverseGeocode_total :
  exists r, fallbackReverseGeocode P lat lon = Ok r.
Proof.
  unfold fallbackReverseGeocode.
  destruct (openMeteo_search_name P (coords_text lat lon) 3) as [data|e]; simpl.
  - destruct (om_results data) as [[|h t]|]; simpl; eauto.
  - eauto.
Qed.

Lemma fallbackReverseGeocode_nothing :
  om_nothing (openMeteo_search_name P (coords_text lat lon) 3) ->
  fallbackReverseGeocode P lat lon = Ok (echo lat lon).
Proof.
  unfold fallbackReverseGeocode, om_nothing.
  destruct (openMeteo_search_name P (coords_text lat lon) 3) as [data|e]; simpl.
  - intros H. destruct (no_results_spec _ H) as [-> | ->]; reflexivity.
  - reflexivity.
Qed.

Lemma reverseGeocode_total :
  exists r, reverseGeocode P lat lon = Ok r.
Proof.
  unfold reverseGeocode.
  destruct (nominatim_reverse P lat lon) as [[d|]|e]; simpl; eauto;
    (destruct (openMeteo_search_coords P lat lon 5) as [data|e']; simpl; eauto;
     destruct (om_results data) as [[|h t]|]; simpl; eauto;
     destruct fallbackReverseGeocode_total as [r ->]; simpl; eauto).
Qed.

Lemma reverseGeocode_nothing :
  reverse_nothing (nominatim_reverse P lat lon) ->
  om_nothing (openMeteo_search_coords P lat lon 5) ->
  om_nothing (openMeteo_search_name P (coords_text lat lon) 3) ->
  reverseGeocode P lat lon = Ok (echo lat lon).
Proof.
  intros Hn Hc Hf. unfold reverseGeocode.
  assert (E : try_catch (nominatim_reverse P lat lon) (fun _ => Ok None) = Ok None).
  { unfold reverse_nothing in Hn.
    destruct (nominatim_reverse P lat lon) as [[d|]|e]; simpl; tauto. }
  rewrite E. unfold om_nothing in Hc.
  destruct (openMeteo_search_coords P lat lon 5) as [data|e]; simpl; [|reflexivity].
  destruct (no_results_spec _ Hc) as [-> | ->];
    rewrite (fallbackReverseGeocode_nothing Hf); reflexivity.
Qed.

End ReverseChain.

(** C2: for coordinates in range, when the detailed reverse geocoder,
    the search by coordinates and the last search by the coordinate
    text all throw or find nothing, [reverseGeocode] returns the
    coordinates as the name with country and admin1 "Unknown"; and
    whatever the providers answer, neither [fallbackReverseGeocode]
    nor [reverseGeocode] throws. *)
Theorem reverseGeocode_all_providers_fail (P : Providers) (lat lon : number) :
  validateCoordinates lat lon = true ->
  reverse_nothing (nominatim_reverse P lat lon) ->
  om_nothing (openMeteo_search_coords P lat lon 5) ->
  om_nothing (openMeteo_search_name P (coords_text lat lon) 3) ->
  reverseGeocode P lat lon
  = Ok {| rd_name := Number_toString lat ++ lit "," ++ Number_toString lon;
          rd_country := lit "Unknown";
          rd_admin1 := lit "Unknown";
          rd_admin2 := None;
          rd_admin3 := None |}
  /\ (forall P' lat' lon', exists r, fallbackReverseGeocode P' lat' lon' = Ok r)
  /\ (forall P' lat' lon', exists r, reverseGeocode P' lat' lon' = Ok r).
Proof.
  intros _ Hn Hc Hf. split; [|split].
  - now apply reverseGeocode_nothing.
  - apply fallbackReverseGeocode_total.
  - apply reverseGeocode_total.
Qed.

Lemma reverseGeocode_all_providers_fail_witness :
  reverseGeocode rate_limited 51.5074 (-0.1278)
  = Ok {| rd_name := lit "51.5074,-0.1278";
          rd_country := lit "Unknown";
          rd_admin1 := lit "Unknown";
          rd_admin2 := None;
          rd_admin3 := None |}.
Proof.
  refine (proj1 (reverseGeocode_all_providers_fail rate_limited 51.5074 (-0.1278) _ _ _ _)).
  - vm_compute. reflexivity.
  - simpl. exact I.
  - simpl. reflexivity.
  - simpl. exact I.
Defined.

(** C7, as the code has it: a rate-limit answer is a fallback trigger
    at every position of the reverse chain, the last included.  When
    the earlier strategies threw (a 429 among the reasons) or found
    nothing and the last provider answers 429, [fallbackReverseGeocode]
    and [reverseGeocode] return the coordinates as the name with
    "Unknown" fields; [reverseGeocode] propagates no provider error,
    whatever the providers answer. *)
Theorem reverseGeocode_rate_limit_is_absorbed (P : Providers) (lat lon : number) (msg : str) :
  reverse_nothing (nominatim_reverse P lat lon) ->
  om_nothing (openMeteo_search_coords P lat lon 5) ->
  openMeteo_search_name P (coords_text lat lon) 3 = Throw (AxiosError (Some 429%N) msg) ->
  reverseGeocode P lat lon = Ok (echo lat lon)
  /\ fallbackReverseGeocode P lat lon = Ok (echo lat lon)
  /\ (forall P', exists r, reverseGeocode P' lat lon = Ok r).
Proof.
  intros Hn Hc Hf. split; [|split].
  - apply reverseGeocode_nothing; auto. rewrite Hf. exact I.
  - apply fallbackReverseGeocode_nothing. rewrite Hf. exact I.
  - intros P'. apply reverseGeocode_total.
Qed.

Lemma reverseGeocode_rate_limit_is_absorbed_witness :
  reverseGeocode rate_limited 10 20 = Ok (echo 10 20).
Proof.
  refine (proj1 (reverseGeocode_rate_limit_is_absorbed rate_limited 10 20
                   (msg := lit "Request failed with status code 429") _ _ _)).
  - simpl. exact I.
  - simpl. reflexivity.
  - reflexivity.
Defined.

(** C7 as stated fails: the last provider of the chain answers 429 and
    the chain returns the coordinate echo instead of throwing. *)
Lemma reverseGeocode_rate_limit_not_propagated :
  openMeteo_search_name rate_limited (coords_text 10 20) 3
  = Throw (AxiosError (Some 429%N) (lit "Request failed with status code 429"))
  /\ reverseGeocode rate_limited 10 20
     = Ok {| rd_name := lit "10,20"; rd_country := lit "Unknown";
             rd_admin1 := lit "Unknown"; rd_admin2 := None; rd_admin3 := None |}
  /\ ~ (exists e, reverseGeocode rate_limited 10 20 = Throw e).
Proof.
  split; [reflexivity|]. split; [vm_compute; reflexivity|].
  intros [e He]. vm_compute in He. discriminate.
Qed.

(* ================================================================== *)
(** * The text chain *)
(* ================================================================== *)

Lemma try_queries_all_fail P originalQuery queries :
  (forall q, In q queries -> query_fails P q) ->
  try_queries P originalQuery queries
  = Throw (Error (lit "No fallback location found for: " ++ originalQuery)).
Proof.
  induction queries as [|q qs IH]; intros Hall; simpl; [reflexivity|].
  pose proof (Hall q (or_introl eq_refl)) as Hq. unfold query_fails in Hq.
  assert (IH' := IH (fun q' Hin => Hall q' (or_intror Hin))).
  destruct (searchLocation P q) as [r|e]; [|exact IH'].
  rewrite Hq, str_eqb_refl. simpl. exact IH'.
Qed.

Lemma try_queries_tag P originalQuery queries r :
  try_queries P originalQuery queries = Ok r -> resolvedBy r = by_geocoding.
Proof.
  induction queries as [|q qs IH]; simpl; [discriminate|].
  destruct (searchLocation P q) as [r'|e] eqn:E; [|exact IH].
  destruct (negb (str_eqb (name r') (lit "Unknown Location"))); [|exact IH].
  intros H. inversion H; subst.
  unfold searchLocation in E.
  destruct (nominatim_search P q) as [[[|h t]|]|e']; simpl in E; try discriminate.
  inversion E. reflexivity.
Qed.

(** C1, what the code does: when the primary geocoder has no results
    and every query variation fails, the [LocationNotFoundError] thrown
    inside the [try] is caught by the outer [catch] of
    [resolveTextLocation], and what reaches the caller is a plain
    [Error] whose message starts with "Geocoding service error: "; the
    typed error does not leave the function. *)
Theorem resolveTextLocation_not_found_is_wrapped
    {RT : Runtime} (P : Providers) (li : LocationInput) (data : OMData) :
  openMeteo_search_name P (normalized li) 1 = Ok data ->
  no_results data = true ->
  (forall q, In q (generateQueryVariations (value li)) -> query_fails P q) ->
  resolveTextLocation P li
  = Throw (Error (lit "Geocoding service error: Location not found: " ++ value li))
  /\ resolveTextLocation P li <> Throw (LocationNotFoundError (value li)).
Proof.
  intros Hp Hn Hall.
  assert (E : resolveTextLocation P li
              = Throw (Error (lit "Geocoding service error: Location not found: "
                              ++ value li))).
  { unfold resolveTextLocation. rewrite Hp. simpl.
    unfold searchWithVariations. rewrite (try_queries_all_fail _ _ _ Hall).
    destruct (no_results_spec _ Hn) as [-> | ->]; reflexivity. }
  split; [exact E|]. rewrite E. discriminate.
Qed.

Lemma resolveTextLocation_not_found_is_wrapped_witness :
  resolveTextLocation (RT := asciiRT) silent (text_input city "Nonexistent Placeqzx123")
  = Throw (Error (lit "Geocoding service error: Location not found: Nonexistent Placeqzx123")).
Proof.
  refine (proj1 (resolveTextLocation_not_found_is_wrapped (RT := asciiRT) silent
                   (text_input city "Nonexistent Placeqzx123") (data := no_hit) _ _ _)).
  - reflexivity.
  - reflexivity.
  - intros q _. exact I.
Defined.

(** C6, what the code does: a hit of the primary geocoder is tagged by
    the type of the input, "landmark" for a landmark and "geocoding"
    otherwise; a result of the query-variation fallback is returned as
    [searchLocation] built it, tagged "geocoding" whatever the type of
    the input, a landmark included. *)
Theorem resolveTextLocation_tag
    {RT : Runtime} (P : Providers) (li : LocationInput) (data : OMData) (r : ILocation) :
  openMeteo_search_name P (normalized li) 1 = Ok data ->
  resolveTextLocation P li = Ok r ->
  (no_results data = false ->
   resolvedBy r = match type li with landmark => by_landmark | _ => by_geocoding end)
  /\ (no_results data = true -> resolvedBy r = by_geocoding).
Proof.
  intros Hp Hr. unfold resolveTextLocation in Hr. rewrite Hp in Hr. simpl in Hr.
  unfold no_results. split; intros Hn.
  - destruct (om_results data) as [[|h t]|]; try discriminate.
    simpl in Hr. inversion Hr. reflexivity.
  - destruct (om_results data) as [[|h t]|]; try discriminate;
      unfold searchWithVariations in Hr;
      destruct (try_queries P (value li) (generateQueryVariations (value li)))
        as [r'|e] eqn:E; simpl in Hr; try discriminate;
      inversion Hr; subst; eapply try_queries_tag; eauto.
Qed.

Lemma resolveTextLocation_tag_witness :
  exists r,
    type (text_input landmark "Central Park") = landmark
    /\ resolveTextLocation (RT := asciiRT) fallback_only (text_input landmark "Central Park") = Ok r
    /\ name r = lit "New York, United States"
    /\ resolvedBy r = by_geocoding.
Proof.
  eexists. split; [reflexivity|]. split; [vm_compute; reflexivity|].
  split; [reflexivity|].
  refine (proj2 (resolveTextLocation_tag (RT := asciiRT) fallback_only
                   (text_input landmark "Central Park") (data := no_hit) _ _) _).
  - reflexivity.
  - vm_compute. reflexivity.
  - reflexivity.
Defined.

(* ================================================================== *)
(** * The coordinate path *)
(* ================================================================== *)

Lemma resolveCoordinates_cases P li :
  (lt (parsed_lat li) (-90) || gt (parsed_lat li) 90
   || lt (parsed_lon li) (-180) || gt (parsed_lon li) 180 = true
   /\ resolveCoordinates P li = Throw invalid_coordinates)
  \/ (lt (parsed_lat li) (-90) || gt (parsed_lat li) 90
      || lt (parsed_lon li) (-180) || gt (parsed_lon li) 180 = false
      /\ exists d, reverseGeocode P (parsed_lat li) (parsed_lon li) = Ok d
         /\ resolveCoordinates P li
            = Ok {| name := rd_name d; country := rd_country d; admin1 := rd_admin1 d;
                    lat := parsed_lat li; lon := parsed_lon li;
                    resolvedBy := by_coords |}).
Proof.
  unfold resolveCoordinates. fold (parsed_lat li) (parsed_lon li).
  destruct (lt (parsed_lat li) (-90) || gt (parsed_lat li) 90
            || lt (parsed_lon li) (-180) || gt (parsed_lon li) 180).
  - left. auto.
  - right. split; [reflexivity|].
    destruct (reverseGeocode_total P (parsed_lat li) (parsed_lon li)) as [d Hd].
    exists d. rewrite Hd. auto.
Qed.

(** C3: a coordinate input that resolves comes back with exactly the
    latitude and longitude parsed from its text and the tag "coords",
    both when the reverse geocoder supplied the names and when the
    coordinates themselves are the name; resolving "51.5074,-0.1278"
    with the hint "coordinates" gives lat 51.5074, lon -0.1278 and the
    tag "coords" whatever the providers answer. *)
Theorem resolveCoordinates_keeps_input
    {RT : Runtime} (P : Providers) (li : LocationInput) (r : ILocation) :
  resolveCoordinates P li = Ok r ->
  lat r = parseFloat_opt (item (split_char c_comma (normalized li)) 0)
  /\ lon r = parseFloat_opt (item (split_char c_comma (normalized li)) 1)
  /\ resolvedBy r = by_coords
  /\ (forall P', exists r',
         resolveLocation P' (lit "51.5074,-0.1278") (Some (lit "coordinates")) = Ok r'
         /\ lat r' = 51.5074%float /\ lon r' = (-0.1278)%float
         /\ resolvedBy r' = by_coords).
Proof.
  intros Hr. repeat split.
  - destruct (resolveCoordinates_cases P li) as [[_ E]|[_ [d [_ E]]]];
      rewrite E in Hr; inversion Hr; reflexivity.
  - destruct (resolveCoordinates_cases P li) as [[_ E]|[_ [d [_ E]]]];
      rewrite E in Hr; inversion Hr; reflexivity.
  - destruct (resolveCoordinates_cases P li) as [[_ E]|[_ [d [_ E]]]];
      rewrite E in Hr; inversion Hr; reflexivity.
  - intros P'.
    set (li' := {| type := coordinates; value := lit "51.5074,-0.1278";
                   normalized := lit "51.5074,-0.1278" |}).
    assert (E : resolveLocation P' (lit "51.5074,-0.1278") (Some (lit "coordinates"))
                = resolveCoordinates P' li').
    { unfold resolveLocation.
      replace (trim (lit "51.5074,-0.1278")) with (lit "51.5074,-0.1278")
        by (vm_compute; reflexivity).
      replace (truthy_opt (Some (lit "coordinates"))
               && negb (str_eqb (unwrap (Some (lit "coordinates"))) (lit "auto")))
        with true by (vm_compute; reflexivity).
      replace (type_of_hint (unwrap (Some (lit "coordinates")))) with coordinates
        by (vm_compute; reflexivity).
      replace (normalizeCoordinates (lit "51.5074,-0.1278")) with (lit "51.5074,-0.1278")
        by (vm_compute; reflexivity).
      reflexivity. }
    rewrite E.
    destruct (resolveCoordinates_cases P' li') as [[G _]|[_ [d [_ E']]]].
    + vm_compute in G. discriminate.
    + rewrite E'. eexists. split; [reflexivity|].
      repeat split; vm_compute; reflexivity.
Qed.

Lemma resolveCoordinates_keeps_input_witness :
  exists r,
    resolveCoordinates silent (text_input coordinates "48.8566,2.3522") = Ok r
    /\ lat r = 48.8566%float /\ lon r = 2.3522%float /\ resolvedBy r = by_coords.
Proof.
  eexists. split; [vm_compute; reflexivity|].
  pose proof (resolveCoordinates_keeps_input (RT := asciiRT) silent
                (text_input coordinates "48.8566,2.3522")
                (r := {| name := lit "48.8566,2.3522"; country := lit "Unknown";
                         admin1 := lit "Unknown"; lat := 48.8566; lon := 2.3522;
                         resolvedBy := by_coords |})) as H.
  destruct H as [H1 [H2 [H3 _]]]; [vm_compute; reflexivity|].
  exact (conj H1 (conj H2 H3)).
Defined.

(** C10 as stated fails: "95" is a single number; its latitude parses
    to 95, its longitude to NaN, and the guard [lat > 90] raises the
    invalid-coordinates error.  So does "Infinity,0", whose latitude is
    not finite and not NaN either. *)
Lemma resolveLocation_single_number_rejected :
  (forall P, resolveLocation (RT := asciiRT) P (lit "95") (Some (lit "coordinates"))
             = Throw invalid_coordinates)
  /\ isNaN (parsed_lon (text_input coordinates "95")) = true
  /\ (forall P, resolveLocation (RT := asciiRT) P (lit "Infinity,0") (Some (lit "coordinates"))
                = Throw invalid_coordinates)
  /\ isNaN (parsed_lat (text_input coordinates "Infinity,0")) = false.
Proof.
  repeat split; intros; vm_compute; reflexivity.
Qed.

(** C10, as the code has it: the range check does not reject NaN.
    A component that parses to NaN makes both comparisons on it false;
    so when each of the two parsed components is NaN or within its
    range, no invalid-coordinates error is raised, the reverse chain is
    asked about these very values, and they are the [lat] and [lon] of
    the returned location; text that is no number resolves with both
    NaN. *)
Theorem resolveCoordinates_nan_passes_guard
    (P : Providers) (li : LocationInput) :
  (isNaN (parsed_lat li) = true
   \/ (ge (parsed_lat li) (-90) = true /\ le (parsed_lat li) 90 = true)) ->
  (isNaN (parsed_lon li) = true
   \/ (ge (parsed_lon li) (-180) = true /\ le (parsed_lon li) 180 = true)) ->
  (isNaN (parsed_lat li) = true ->
   lt (parsed_lat li) (-90) = false /\ gt (parsed_lat li) 90 = false)
  /\ (isNaN (parsed_lon li) = true ->
      lt (parsed_lon li) (-180) = false /\ gt (parsed_lon li) 180 = false)
  /\ exists d,
      reverseGeocode P (parsed_lat li) (parsed_lon li) = Ok d
      /\ resolveCoordinates P li
         = Ok {| name := rd_name d; country := rd_country d; admin1 := rd_admin1 d;
                 lat := parsed_lat li; lon := parsed_lon li;
                 resolvedBy := by_coords |}.
Proof.
  intros Hlat Hlon.
  split; [|split].
  - intros H. split; [now apply lt_nan_l|now apply gt_nan_l].
  - intros H. split; [now apply lt_nan_l|now apply gt_nan_l].
  - destruct (resolveCoordinates_cases P li) as [[G _]|[_ H]]; [|exact H].
    exfalso.
    assert (L1 : lt (parsed_lat li) (-90) = false)
      by (destruct Hlat as [H|[H _]]; [now apply lt_nan_l|now apply ge_not_lt]).
    assert (L2 : gt (parsed_lat li) 90 = false)
      by (destruct Hlat as [H|[_ H]]; [now apply gt_nan_l|now apply le_not_gt]).
    assert (L3 : lt (parsed_lon li) (-180) = false)
      by (destruct Hlon as [H|[H _]]; [now apply lt_nan_l|now apply ge_not_lt]).
    assert (L4 : gt (parsed_lon li) 180 = false)
      by (destruct Hlon as [H|[_ H]]; [now apply gt_nan_l|now apply le_not_gt]).
    rewrite L1, L2, L3, L4 in G. discriminate.
Qed.

Lemma resolveCoordinates_nan_passes_guard_witness :
  exists r,
    resolveLocation (RT := asciiRT) silent (lit "somewhere") (Some (lit "coordinates")) = Ok r
    /\ isNaN (lat r) = true /\ isNaN (lon r) = true
    /\ name r = lit "NaN,NaN" /\ resolvedBy r = by_coords.
Proof.
  destruct (resolveCoordinates_nan_passes_guard silent (text_input coordinates "somewhere"))
    as [_ [_ [d [Hd Hr]]]].
  - left. vm_compute. reflexivity.
  - left. vm_compute. reflexivity.
  - eexists. split.
    + change (resolveLocation (RT := asciiRT) silent (lit "somewhere") (Some (lit "coordinates")))
        with (resolveCoordinates silent (text_input coordinates "somewhere")).
      exact Hr.
    + vm_compute in Hd. inversion Hd; subst d.
      repeat split; vm_compute; reflexivity.
Defined.

(* ================================================================== *)
(** * The postal chain *)
(* ================================================================== *)

Lemma zip_openMeteo_tag P li r :
  zip_openMeteo P li = Ok r -> resolvedBy r = by_zipcode.
Proof.
  unfold zip_openMeteo.
  destruct (openMeteo_search_name P (normalized li) 1) as [data|e]; simpl.
  - destruct (om_results data) as [[|h t]|]; simpl; try discriminate.
    intros H. inversion H. reflexivity.
  - destruct (isAxiosError e); [|discriminate].
    destruct (has_status e 404 || has_status e 400); discriminate.
Qed.

Lemma zip_primary_tag {RT : Runtime} P li r :
  zip_primary P li = Some r -> resolvedBy r = by_zipcode.
Proof.
  unfold zip_primary.
  destruct (isAvailable P); [|discriminate].
  destruct (searchPostalCode P (normalized li)) as [results|e]; [|discriminate].
  destruct (getBestResult results); [|discriminate].
  intros H. inversion H. reflexivity.
Qed.

(** C9: with no postal API key, or when the postal lookup throws or
    has no candidates, [resolveZipCode] is the forward-geocoder search
    by the normalized code; whichever provider answered, a result of
    [resolveZipCode] is tagged "zipcode".  With no key, "12345" is
    classified as a zip code and resolved by that search. *)
Theorem resolveZipCode_falls_through_and_tags
    {RT : Runtime} (P : Providers) (li : LocationInput) :
  (isAvailable P = false
   \/ (exists e, searchPostalCode P (normalized li) = Throw e)
   \/ searchPostalCode P (normalized li) = Ok []) ->
  resolveZipCode P li = zip_openMeteo P li
  /\ (forall P' li' r, resolveZipCode P' li' = Ok r -> resolvedBy r = by_zipcode)
  /\ (forall P', isAvailable P' = false ->
        resolveLocation P' (lit "12345") None
        = zip_openMeteo P' {| type := zipcode; value := lit "12345";
                              normalized := lit "12345" |}).
Proof.
  intros H. split; [|split].
  - unfold resolveZipCode, zip_primary.
    destruct H as [-> | [[e ->] | ->]]; [reflexivity| |];
      destruct (isAvailable P); reflexivity.
  - intros P' li' r. unfold resolveZipCode.
    destruct (zip_primary P' li') as [loc|] eqn:E.
    + intros Hr. inversion Hr; subst. eapply zip_primary_tag; eauto.
    + apply zip_openMeteo_tag.
  - intros P' Hkey. unfold resolveLocation. simpl.
    replace (detectLocationType (trim (lit "12345")))
      with {| type := zipcode; value := lit "12345"; normalized := lit "12345" |}
      by (vm_compute; reflexivity).
    unfold resolveByType. simpl. unfold resolveZipCode, zip_primary.
    rewrite Hkey. reflexivity.
Qed.

Lemma resolveZipCode_falls_through_and_tags_witness :
  exists r,
    isAvailable keyless = false
    /\ resolveLocation (RT := asciiRT) keyless (lit "12345") None = Ok r
    /\ name r = lit "Schenectady" /\ resolvedBy r = by_zipcode.
Proof.
  pose proof (resolveZipCode_falls_through_and_tags (RT := asciiRT) keyless
                (text_input zipcode "12345") (or_introl eq_refl)) as [H1 [H2 H3]].
  eexists. split; [reflexivity|]. split; [vm_compute; reflexivity|].
  split; [reflexivity|].
  apply (H2 keyless (text_input zipcode "12345")). vm_compute. reflexivity.
Defined.

Lemma has_valid_coordinates_truthy result :
  truthy (latitude result) && truthy (longitude result) = false ->
  has_valid_coordinates result = false.
Proof.
  assert (N : isNaN (parseFloat []) = true) by (vm_compute; reflexivity).
  unfold has_valid_coordinates. cbv zeta.
  destruct (latitude result) as [|a la].
  - intros _. rewrite N. reflexivity.
  - destruct (longitude result) as [|b lo]; [|discriminate].
    intros _. rewrite N. cbn [negb]. rewrite andb_false_r. reflexivity.
Qed.

Lemma calculateResultScore_spec result :
  calculateResultScore result = spec_score result.
Proof.
  unfold calculateResultScore, spec_score, weight. cbv zeta.
  fold (has_valid_coordinates result).
  destruct (truthy (latitude result) && truthy (longitude result)) eqn:T.
  - destruct (has_valid_coordinates result), (present (zb_city result)),
      (present (zb_state result)), (present (province result)),
      (present (country_code result)); reflexivity.
  - rewrite (has_valid_coordinates_truthy _ T).
    destruct (present (zb_city result)), (present (zb_state result)),
      (present (province result)), (present (country_code result)); reflexivity.
Qed.

Lemma sort_insert_head x l :
  hd_error (sort_insert by_score x l)
  = match l with
    | [] => Some x
    | y :: _ => if (sc_score x <? sc_score y)%Z then Some y else Some x
    end.
Proof.
  destruct l as [|y l]; simpl; [reflexivity|]. unfold by_score.
  destruct (Z.ltb_spec 0 (sc_score y - sc_score x));
    destruct (Z.ltb_spec (sc_score x) (sc_score y)); try lia; reflexivity.
Qed.

(** The head of the sorted candidates is the first candidate of the
    highest score. *)
Lemma sort_head_first_max x l :
  exists before best after,
    x :: l = before ++ best :: after
    /\ hd_error (sort by_score (map scored (x :: l))) = Some (scored best)
    /\ (forall y, In y before -> (calculateResultScore y < calculateResultScore best)%Z)
    /\ (forall y, In y after -> (calculateResultScore y <= calculateResultScore best)%Z).
Proof.
  revert x. induction l as [|x' l IH]; intros x.
  - exists [], x, []. repeat split; simpl; intros; contradiction.
  - destruct (IH x') as [before [best [after [E [Hh [Hb Ha]]]]]].
    change (sort by_score (map scored (x :: x' :: l)))
      with (sort_insert by_score (scored x) (sort by_score (map scored (x' :: l)))).
    rewrite sort_insert_head.
    destruct (sort by_score (map scored (x' :: l))) as [|y ys] eqn:Es; [discriminate|].
    simpl in Hh. inversion Hh; subst y. simpl sc_score.
    destruct (Z.ltb_spec (calculateResultScore x) (calculateResultScore best)) as [Hlt|Hge].
    + exists (x :: before), best, after. repeat split.
      * simpl. now rewrite E.
      * intros y [<-|Hy]; auto.
      * assumption.
    + exists [], x, (x' :: l). repeat split.
      * intros y [].
      * intros y Hy. rewrite E in Hy. apply in_app_or in Hy.
        destruct Hy as [Hy|[<-|Hy]].
        -- specialize (Hb _ Hy). lia.
        -- lia.
        -- specialize (Ha _ Hy). lia.
Qed.

Lemma weight_mono (a b : bool) (w : Z) :
  (0 <= w)%Z -> (b = true -> a = true) -> (weight b w <= weight a w)%Z.
Proof.
  intros Hw Hab. destruct b; simpl.
  - rewrite (Hab eq_refl). simpl. lia.
  - destruct a; simpl; lia.
Qed.

(** C5: the score of a postal candidate is the sum of 15 for
    coordinates that both parse to numbers within range, 10 for a city,
    8 for a state, 5 for a province and 3 for a country code;
    [getBestResult] returns the first candidate of the highest score;
    a candidate that has every scored field another has scores at
    least as much, so one with all five scores 41, the most there is. *)
Theorem postal_scoring (result : ZipCodeBaseResult) :
  calculateResultScore result
  = ((if has_valid_coordinates result then 15 else 0)
     + (if present (zb_city result) then 10 else 0)
     + (if present (zb_state result) then 8 else 0)
     + (if present (province result) then 5 else 0)
     + (if present (country_code result) then 3 else 0))%Z
  /\ (forall x l,
        exists before best after,
          x :: l = before ++ best :: after
          /\ getBestResult (x :: l) = Some best
          /\ (forall y, In y before ->
                        (calculateResultScore y < calculateResultScore best)%Z)
          /\ (forall y, In y after ->
                        (calculateResultScore y <= calculateResultScore best)%Z))
  /\ getBestResult [] = None
  /\ (forall a b, at_least_as_complete a b ->
                  (calculateResultScore b <= calculateResultScore a)%Z)
  /\ (forall a b,
        has_valid_coordinates a = true -> present (zb_city a) = true ->
        present (zb_state a) = true -> present (province a) = true ->
        present (country_code a) = true ->
        calculateResultScore a = 41%Z
        /\ (calculateResultScore b <= calculateResultScore a)%Z).
Proof.
  assert (Hmono : forall a b, at_least_as_complete a b ->
                              (calculateResultScore b <= calculateResultScore a)%Z).
  { intros a b [H1 [H2 [H3 [H4 H5]]]]. rewrite !calculateResultScore_spec.
    unfold spec_score.
    pose proof (weight_mono (w := 15) ltac:(lia) H1).
    pose proof (weight_mono (w := 10) ltac:(lia) H2).
    pose proof (weight_mono (w := 8) ltac:(lia) H3).
    pose proof (weight_mono (w := 5) ltac:(lia) H4).
    pose proof (weight_mono (w := 3) ltac:(lia) H5). lia. }
  split; [|split; [|split; [|split]]].
  - apply calculateResultScore_spec.
  - intros x l. destruct l as [|x' l].
    + exists [], x, []. repeat split; simpl; intros; contradiction.
    + destruct (sort_head_first_max x (x' :: l)) as [before [best [after [E [Hh [Hb Ha]]]]]].
      exists before, best, after. repeat split; auto.
      change (getBestResult (x :: x' :: l))
        with (match sort by_score (map scored (x :: x' :: l)) with
              | best0 :: _ => Some (sc_result best0)
              | [] => None
              end).
      destruct (sort by_score (map scored (x :: x' :: l))) as [|y ys] eqn:Es;
        [discriminate|].
      simpl in Hh. inversion Hh. reflexivity.
  - reflexivity.
  - exact Hmono.
  - intros a b Hc H1 H2 H3 H4. split.
    + rewrite calculateResultScore_spec. unfold spec_score.
      rewrite Hc, H1, H2, H3, H4. reflexivity.
    + apply Hmono. repeat split; auto.
Qed.

Lemma postal_scoring_witness :
  getBestResult
    [candidate "Sao Paulo" "" "" "BR" "" "";
     candidate "Sao Paulo" "SP" "Sao Paulo" "BR" "-23.56" "-46.65";
     candidate "Campinas" "SP" "Campinas" "BR" "-22.9" "-47.06"]
  = Some (candidate "Sao Paulo" "SP" "Sao Paulo" "BR" "-23.56" "-46.65")
  /\ calculateResultScore (candidate "Sao Paulo" "" "" "BR" "" "") = 13%Z
  /\ calculateResultScore (candidate "Campinas" "SP" "Campinas" "BR" "-22.9" "-47.06") = 41%Z.
Proof.
  split; [vm_compute; reflexivity|]. split.
  - rewrite (proj1 (postal_scoring (candidate "Sao Paulo" "" "" "BR" "" ""))).
    vm_compute. reflexivity.
  - rewrite (proj1 (postal_scoring (candidate "Campinas" "SP" "Campinas" "BR" "-22.9" "-47.06"))).
    vm_compute. reflexivity.
Defined.

(* ================================================================== *)
(** * What the patterns of the classifier match *)
(* ================================================================== *)

Ltac sem_inv :=
  repeat match goal with
         | H : Sem (Seq _ _) _ _ |- _ => inversion H; clear H; subst
         | H : Sem (Alt _ _) _ _ |- _ => inversion H; clear H; subst
         | H : Sem (Cls _) _ _ |- _ => inversion H; clear H; subst
         | H : Sem Eps _ _ |- _ => inversion H; clear H; subst
         | H : Sem (Grp _) _ _ |- _ => inversion H; clear H; subst
         | H : Sem (Star (Cls _)) _ _ |- _ =>
             apply sem_star_cls in H; destruct H as [? ?]; subst
         end.

Lemma digits_num_char m :
  Forall (fun a => isDigit a = true) m -> Forall (fun a => num_char a = true) m.
Proof.
  apply Forall_impl. intros a Ha. unfold num_char. now rewrite Ha.
Qed.

Lemma decimal_number_sem m c :
  Sem decimal_number m c ->
  c = [] /\ m <> [] /\ Forall (fun a => num_char a = true) m.
Proof.
  unfold decimal_number, Opt, Plus, Chr, digit. cbn [seqs]. intros H.
  sem_inv; (split; [reflexivity|]); (split; [ | ]);
    try (intros E; apply (f_equal (@length char)) in E;
         rewrite ?length_app in E; simpl in E; lia);
    repeat (apply Forall_app; split);
    try (apply digits_num_char; assumption);
    repeat constructor;
    unfold num_char;
    repeat match goal with H : _ = true |- _ => rewrite H end;
    rewrite ?orb_true_r; try reflexivity.
Qed.

Ltac n_cases :=
  repeat (match goal with
          | |- context [(?x <=? ?y)%N] => destruct (N.leb_spec x y)
          | |- context [(?x =? ?y)%N] => destruct (N.eqb_spec x y)
          | H : context [(?x <=? ?y)%N] |- _ => destruct (N.leb_spec x y)
          | H : context [(?x =? ?y)%N] |- _ => destruct (N.eqb_spec x y)
          end; cbn [negb andb orb] in *; try discriminate; try lia);
  try reflexivity.

Lemma char_eqb_eq a b : char_eqb a b = true -> a = b.
Proof. apply N.eqb_eq. Qed.

Lemma isDigit_range c : isDigit c = true <-> (48 <= c <= 57)%N.
Proof.
  unfold isDigit. rewrite andb_true_iff, !N.leb_le. tauto.
Qed.

Lemma num_char_safe a : num_char a = true -> safe_char a = true.
Proof.
  unfold num_char, safe_char, isWhiteSpace, isDigit, char_eqb,
    c_minus, c_dot, c_semicolon, c_degree.
  intros H. n_cases.
Qed.

Lemma safe_not_space a : safe_char a = true -> isWhiteSpace a = false.
Proof.
  unfold safe_char. destruct (isWhiteSpace a); [discriminate|reflexivity].
Qed.

Lemma comma_safe : safe_char c_comma = true.
Proof. reflexivity. Qed.

Lemma trim_fixed s :
  (forall a s', s = a :: s' -> isWhiteSpace a = false) ->
  (forall s' z, s = s' ++ [z] -> isWhiteSpace z = false) ->
  trim s = s.
Proof.
  intros Hfirst Hlast. unfold trim, trimEnd.
  assert (E : trimStart s = s).
  { destruct s as [|a s']; [reflexivity|]. simpl.
    now rewrite (Hfirst a s' eq_refl). }
  rewrite E.
  destruct (rev s) as [|z r] eqn:Er.
  - apply (f_equal (@rev char)) in Er. rewrite rev_involutive in Er. now subst.
  - assert (Es : s = rev r ++ [z]).
    { apply (f_equal (@rev char)) in Er. now rewrite rev_involutive in Er. }
    simpl. rewrite (Hlast _ _ Es). simpl. now symmetry.
Qed.

Lemma trim_fixed_safe s :
  Forall (fun a => safe_char a = true) s -> trim s = s.
Proof.
  intros Hall. apply trim_fixed.
  - intros a s' ->. apply safe_not_space. now inversion Hall.
  - intros s' z ->. apply safe_not_space.
    apply Forall_app in Hall. destruct Hall as [_ Hz]. now inversion Hz.
Qed.

Lemma decimalPattern_sem s c :
  Sem decimalPattern s c ->
  exists n1 ws n2,
    s = n1 ++ [c_comma] ++ ws ++ n2
    /\ n1 <> [] /\ n2 <> []
    /\ Forall (fun a => num_char a = true) n1
    /\ Forall (fun a => isWhiteSpace a = true) ws
    /\ Forall (fun a => num_char a = true) n2.
Proof.
  unfold decimalPattern, Chr, space. cbn [seqs]. intros H. sem_inv.
  repeat match goal with
         | H : Sem decimal_number _ _ |- _ =>
             apply decimal_number_sem in H; destruct H as [? [? ?]]
         | H : char_eqb _ _ = true |- _ => apply char_eqb_eq in H
         end.
  subst. eexists _, _, _. repeat split; eauto.
Qed.

Lemma altPattern_sem s c :
  Sem altPattern s c ->
  exists g1 ws1 sep ws2 g2,
    c = [g1; g2]
    /\ s = g1 ++ ws1 ++ [sep] ++ ws2 ++ g2
    /\ g1 <> [] /\ g2 <> []
    /\ (sep = c_comma \/ sep = c_semicolon)
    /\ Forall (fun a => num_char a = true) g1
    /\ Forall (fun a => isWhiteSpace a = true) ws1
    /\ Forall (fun a => isWhiteSpace a = true) ws2
    /\ Forall (fun a => num_char a = true) g2.
Proof.
  unfold altPattern, OneOf, space. cbn [seqs]. intros H. sem_inv.
  repeat match goal with
         | H : Sem decimal_number _ _ |- _ =>
             apply decimal_number_sem in H; destruct H as [? [? ?]]
         end.
  subst. eexists _, _, _, _, _. repeat split; eauto.
  match goal with H : _ || _ = true |- _ => rename H into Hsep end.
  rewrite orb_false_r in Hsep. apply orb_prop in Hsep.
  destruct Hsep as [Hsep|Hsep]; apply char_eqb_eq in Hsep; auto.
Qed.

Lemma dms_half_degree dir m c : Sem (dms_half dir) m c -> In c_degree m.
Proof.
  unfold dms_half, Plus, Chr. cbn [seqs]. intros H.
  repeat match goal with
         | H : Sem (Seq _ _) _ _ |- _ => inversion H; clear H; subst
         end.
  match goal with
  | H : Sem (Cls (char_eqb c_degree)) _ _ |- _ => inversion H; subst
  end.
  match goal with H : char_eqb _ _ = true |- _ => apply char_eqb_eq in H; subst end.
  apply in_or_app. right. apply in_or_app. left. now left.
Qed.

Lemma dmsPattern_degree s c : Sem dmsPattern s c -> In c_degree s.
Proof.
  unfold dmsPattern. cbn [seqs]. intros H.
  inversion H; subst. apply in_or_app. left. eapply dms_half_degree; eauto.
Qed.

Lemma dms_groups_degree dir m c : Sem (dms_groups dir) m c -> In c_degree m.
Proof.
  unfold dms_groups, Chr. cbn [seqs]. intros H.
  inversion H as [| |r1 r2 m1 m2 c1 c2 _ H2| | | | |]; subst.
  inversion H2 as [| |r1' r2' m1' m2' c1' c2' H3 _| | | | |]; subst.
  inversion H3; subst.
  match goal with H : char_eqb _ _ = true |- _ => apply char_eqb_eq in H; subst end.
  apply in_or_app. right. apply in_or_app. left. now left.
Qed.

Lemma dmsMatchPattern_degree s c : Sem dmsMatchPattern s c -> In c_degree s.
Proof.
  unfold dmsMatchPattern. cbn [seqs]. intros H.
  inversion H; subst. apply in_or_app. left. eapply dms_groups_degree; eauto.
Qed.

(* ================================================================== *)
(** * The text of a number *)
(* ================================================================== *)

Lemma out_char_safe a : out_char a = true -> safe_char a = true.
Proof.
  unfold out_char. intros H. apply orb_prop in H. destruct H as [H|H].
  - apply num_char_safe. unfold num_char. now rewrite H.
  - apply existsb_exists in H. destruct H as [x [Hin Hx]].
    apply char_eqb_eq in Hx. subst x.
    cbv in Hin.
    repeat (destruct Hin as [<-|Hin]; [reflexivity|]). contradiction.
Qed.

Lemma digit_out_char a : isDigit a = true -> out_char a = true.
Proof. intros H. unfold out_char. now rewrite H. Qed.

Lemma digits_aux_chars fuel :
  forall z acc,
    Forall (fun a => isDigit a = true) acc ->
    Forall (fun a => isDigit a = true) (digits_aux fuel z acc).
Proof.
  induction fuel as [|fuel IH]; intros z acc Hacc; simpl; [assumption|].
  assert (Hd : isDigit (c_zero + Z.to_N (z mod 10))%N = true).
  { apply isDigit_range. unfold c_zero. pose proof (Z.mod_pos_bound z 10 ltac:(lia)) as Hb. lia. }
  destruct (z <? 10)%Z.
  - now constructor.
  - apply IH. now constructor.
Qed.

Lemma Z_digits_chars z : Forall (fun a => isDigit a = true) (Z_digits z).
Proof. apply digits_aux_chars. constructor. Qed.

Lemma zeros_chars n : Forall (fun a => isDigit a = true) (zeros n).
Proof.
  unfold zeros. induction (Z.to_nat n); simpl; constructor; auto.
Qed.

Lemma Forall_out_digits l :
  Forall (fun a => isDigit a = true) l -> Forall (fun a => out_char a = true) l.
Proof. apply Forall_impl. apply digit_out_char. Qed.

Lemma Forall_firstn_skipn {A : Type} (Q : A -> Prop) n (l : list A) :
  Forall Q l -> Forall Q (firstn n l) /\ Forall Q (skipn n l).
Proof.
  intros H. rewrite <- (firstn_skipn n l) in H. now apply Forall_app in H.
Qed.

Lemma format_shortest_chars r :
  Forall (fun a => out_char a = true) (format_shortest r).
Proof.
  unfold format_shortest.
  pose proof (Z_digits_chars (sh_s r)) as Hds.
  set (ds := Z_digits (sh_s r)) in *.
  destruct ((Z.of_nat (length ds) <=? sh_n r)%Z && (sh_n r <=? 21)%Z).
  { apply Forall_app. split; apply Forall_out_digits; auto using zeros_chars. }
  destruct ((0 <? sh_n r)%Z && (sh_n r <=? 21)%Z).
  { destruct (Forall_firstn_skipn (Z.to_nat (sh_n r)) Hds) as [H1 H2].
    repeat (apply Forall_app; split); try (apply Forall_out_digits; assumption).
    repeat constructor. }
  destruct ((-6 <? sh_n r)%Z && (sh_n r <=? 0)%Z).
  { repeat (apply Forall_app; split);
      try (apply Forall_out_digits; solve [auto using zeros_chars]).
    repeat constructor. }
  assert (Hex : Forall (fun a => out_char a = true) (Z_digits (Z.abs (sh_n r - 1))))
    by (apply Forall_out_digits, Z_digits_chars).
  assert (Hsg : out_char (if (sh_n r - 1 <? 0)%Z then c_minus else c_plus) = true)
    by (destruct (sh_n r - 1 <? 0)%Z; reflexivity).
  destruct ds as [|d [|d' ds']]; [constructor| |].
  - inversion Hds; subst.
    apply Forall_app. split; [|assumption].
    repeat constructor; auto using digit_out_char.
  - inversion Hds as [|? ? Hd Hrest]; subst.
    repeat (apply Forall_app; split); try assumption.
    + repeat constructor; auto using digit_out_char.
    + now apply Forall_out_digits.
    + repeat constructor; auto.
Qed.

Lemma Number_toString_chars x :
  Forall (fun a => out_char a = true) (Number_toString x).
Proof.
  unfold Number_toString.
  destruct (Prim2SF x) as [s|s| |s m e].
  - repeat constructor.
  - destruct s; repeat constructor.
  - repeat constructor.
  - apply Forall_app. split; [destruct s; repeat constructor|].
    apply format_shortest_chars.
Qed.

Lemma Number_toString_safe x :
  Forall (fun a => safe_char a = true) (Number_toString x).
Proof.
  eapply Forall_impl; [|apply Number_toString_chars]. apply out_char_safe.
Qed.

(* ================================================================== *)
(** * normalizeCoordinates *)
(* ================================================================== *)

Lemma space_and_safe_nil ws :
  Forall (fun a => isWhiteSpace a = true) ws ->
  Forall (fun a => safe_char a = true) ws ->
  ws = [].
Proof.
  destruct ws as [|a ws]; [reflexivity|]. intros H1 H2.
  inversion H1; subst. inversion H2; subst.
  match goal with H : safe_char a = true |- _ => apply safe_not_space in H end.
  congruence.
Qed.

(** A string without white space, semicolon or degree sign is left as
    it is. *)
Lemma normalizeCoordinates_fixed {RT : Runtime} s :
  Forall (fun a => safe_char a = true) s -> normalizeCoordinates s = s.
Proof.
  intros Hs. unfold normalizeCoordinates.
  rewrite full_match_none.
  2:{ intros c Hc. apply dmsMatchPattern_degree in Hc.
      rewrite Forall_forall in Hs. apply Hs in Hc. discriminate. }
  destruct (full_match altPattern s) as [m|] eqn:E; [|reflexivity].
  apply full_match_sound, altPattern_sem in E.
  destruct E as [g1 [ws1 [sep [ws2 [g2 [-> [Es [_ [_ [Hsep [_ [Hw1 [Hw2 _]]]]]]]]]]]]].
  subst s.
  apply Forall_app in Hs. destruct Hs as [_ Hs].
  apply Forall_app in Hs. destruct Hs as [Hs1 Hs].
  apply Forall_app in Hs. destruct Hs as [Hsp Hs].
  apply Forall_app in Hs. destruct Hs as [Hs2 _].
  rewrite (space_and_safe_nil Hw1 Hs1), (space_and_safe_nil Hw2 Hs2).
  destruct Hsep as [-> | ->]; [reflexivity|].
  inversion Hsp; subst. discriminate.
Qed.

(** C8: [normalizeCoordinates] is idempotent: a DMS input becomes the
    text of two numbers around a comma, an input with another
    separator becomes its two numbers around a comma, and either text
    is left as it is by a second pass; any other input is returned
    unchanged. *)
Theorem normalizeCoordinates_idempotent {RT : Runtime} (x : str) :
  normalizeCoordinates (normalizeCoordinates x) = normalizeCoordinates x.
Proof.
  destruct (full_match dmsMatchPattern x) as [m|] eqn:D.
  - apply normalizeCoordinates_fixed.
    unfold normalizeCoordinates. rewrite D. cbv zeta.
    repeat (apply Forall_app; split); try apply Number_toString_safe.
    repeat constructor.
  - destruct (full_match altPattern x) as [m|] eqn:A.
    + apply normalizeCoordinates_fixed.
      unfold normalizeCoordinates. rewrite D, A.
      apply full_match_sound, altPattern_sem in A.
      destruct A as [g1 [ws1 [sep [ws2 [g2 [-> [_ [_ [_ [_ [H1 [_ [_ H2]]]]]]]]]]]]].
      simpl group.
      repeat (apply Forall_app; split).
      * eapply Forall_impl; [|exact H1]. apply num_char_safe.
      * repeat constructor.
      * eapply Forall_impl; [|exact H2]. apply num_char_safe.
    + assert (E : normalizeCoordinates x = x)
        by (unfold normalizeCoordinates; rewrite D, A; reflexivity).
      now rewrite !E.
Qed.

(* ================================================================== *)
(** * The type classifier *)
(* ================================================================== *)

Lemma isCoordinates_separator s :
  isCoordinates s = true ->
  In c_comma s \/ In c_semicolon s \/ In c_degree s.
Proof.
  unfold isCoordinates. intros H.
  apply orb_prop in H. destruct H as [H|H]; [apply orb_prop in H; destruct H as [H|H]|].
  - apply test_sound in H. destruct H as [c H].
    apply decimalPattern_sem in H. destruct H as [n1 [ws [n2 [-> _]]]].
    left. apply in_or_app. right. now left.
  - apply test_sound in H. destruct H as [c H].
    right. right. eapply dmsPattern_degree; eauto.
  - apply test_sound in H. destruct H as [c H].
    apply altPattern_sem in H.
    destruct H as [g1 [ws1 [sep [ws2 [g2 [_ [-> [_ [_ [Hsep _]]]]]]]]]].
    assert (Hin : In sep (g1 ++ ws1 ++ [sep] ++ ws2 ++ g2)).
    { apply in_or_app. right. apply in_or_app. right. now left. }
    destruct Hsep as [-> | ->]; auto.
Qed.

Lemma zip_char_num a : zip_char a = true -> num_char a = true.
Proof.
  unfold zip_char, num_char. intros ->. reflexivity.
Qed.

Lemma zip_chars_not_coordinates s :
  Forall (fun a => zip_char a = true) s -> isCoordinates s = false.
Proof.
  intros Hs. destruct (isCoordinates s) eqn:E; [|reflexivity].
  apply isCoordinates_separator in E. rewrite Forall_forall in Hs.
  destruct E as [E|[E|E]]; apply Hs in E; discriminate.
Qed.

Lemma zip_chars_trim s :
  Forall (fun a => zip_char a = true) s -> trim s = s.
Proof.
  intros Hs. apply trim_fixed_safe.
  eapply Forall_impl; [|exact Hs]. intros a Ha. now apply num_char_safe, zip_char_num.
Qed.

Lemma digits_zip_chars s :
  Forall (fun a => isDigit a = true) s -> Forall (fun a => zip_char a = true) s.
Proof.
  apply Forall_impl. intros a Ha. unfold zip_char. now rewrite Ha.
Qed.

Lemma sem_times_digits m :
  Forall (fun a => isDigit a = true) m -> Sem (Times (length m) digit) m [].
Proof.
  induction 1 as [|a m Ha _ IH]; simpl; [constructor|].
  change (a :: m) with ([a] ++ m). change (@nil str) with (@nil str ++ @nil str).
  constructor; [now constructor|assumption].
Qed.

Lemma sem_upto_digits n :
  forall m, Forall (fun a => isDigit a = true) m -> (length m <= n)%nat ->
            Sem (UpTo n digit) m [].
Proof.
  induction n as [|n IH]; intros m Hm Hlen.
  - destruct m; [constructor|simpl in Hlen; lia].
  - simpl. unfold Opt. destruct m as [|a m].
    + apply SemAltR. constructor.
    + apply SemAltL. inversion Hm; subst.
      change (a :: m) with ([a] ++ m). change (@nil str) with (@nil str ++ @nil str).
      constructor; [now constructor|]. apply IH; [assumption|simpl in Hlen; lia].
Qed.

Lemma sem_app_nil r1 r2 m1 m2 :
  Sem r1 m1 [] -> Sem r2 m2 [] -> Sem (Seq r1 r2) (m1 ++ m2) [].
Proof.
  intros H1 H2. change (@nil str) with (@nil str ++ @nil str). now constructor.
Qed.

(** Five to ten digits are a zip code by the generic pattern. *)
Lemma isZipCode_digits s :
  Forall (fun a => isDigit a = true) s ->
  (5 <= length s <= 10)%nat ->
  isZipCode s = true.
Proof.
  intros Hs Hlen. unfold isZipCode.
  assert (E : test genericZip s = true).
  { apply test_complete with (c := []).
    unfold genericZip, Range.
    rewrite <- (firstn_skipn 5 s).
    destruct (Forall_firstn_skipn 5 Hs) as [H1 H2].
    apply sem_app_nil.
    - replace 5%nat with (length (firstn 5 s)) at 1
        by (rewrite length_firstn; lia).
      now apply sem_times_digits.
    - apply sem_upto_digits; [assumption|]. rewrite length_skipn. lia. }
  rewrite E. now rewrite !orb_true_r.
Qed.

(** Five digits, a dash and four digits are a zip code by the US
    pattern. *)
Lemma isZipCode_plus4 a b :
  Forall (fun x => isDigit x = true) a -> Forall (fun x => isDigit x = true) b ->
  length a = 5%nat -> length b = 4%nat ->
  isZipCode (a ++ [c_minus] ++ b) = true.
Proof.
  intros Ha Hb La Lb. unfold isZipCode.
  assert (E : test usZip (a ++ [c_minus] ++ b) = true).
  { apply test_complete with (c := [] ++ [[c_minus] ++ b]).
    unfold usZip. cbn [seqs]. constructor.
    - rewrite <- La. now apply sem_times_digits.
    - unfold Opt. apply SemAltL.
      change ([[c_minus] ++ b]) with (([c_minus] ++ b) :: @nil str).
      constructor. unfold Chr. apply sem_app_nil.
      + constructor. reflexivity.
      + rewrite <- Lb. now apply sem_times_digits. }
  now rewrite E.
Qed.

Lemma detect_zip {RT : Runtime} s :
  Forall (fun a => zip_char a = true) s -> isZipCode s = true ->
  type (detectLocationType s) = zipcode.
Proof.
  intros Hs Hz. unfold detectLocationType.
  rewrite (zip_chars_trim Hs), (zip_chars_not_coordinates Hs), Hz. reflexivity.
Qed.

(** C4: the classifier, which [resolveLocation] runs when there is no
    hint or the hint is "auto", is a function from strings to
    classified inputs, so it is total and cannot throw; it tests the
    trimmed input for coordinates, postal code, landmark keyword and
    city shape in this order, the first test that holds gives the type,
    and the type is "address" when none holds.  Every string that the
    decimal pattern matches is classified as coordinates; every string
    of five to ten digits, so of five or of nine, and every string of
    five digits, a dash and four digits is classified as a zip code. *)
Theorem detectLocationType_priority {RT : Runtime} (input : str) :
  value (detectLocationType input) = trim input
  /\ (isCoordinates (trim input) = true ->
      type (detectLocationType input) = coordinates)
  /\ (isCoordinates (trim input) = false -> isZipCode (trim input) = true ->
      type (detectLocationType input) = zipcode)
  /\ (isCoordinates (trim input) = false -> isZipCode (trim input) = false ->
      isLandmark (trim input) = true ->
      type (detectLocationType input) = landmark)
  /\ (isCoordinates (trim input) = false -> isZipCode (trim input) = false ->
      isLandmark (trim input) = false -> isCity (trim input) = true ->
      type (detectLocationType input) = city)
  /\ (isCoordinates (trim input) = false -> isZipCode (trim input) = false ->
      isLandmark (trim input) = false -> isCity (trim input) = false ->
      type (detectLocationType input) = address)
  /\ (forall s, test decimalPattern s = true ->
                type (detectLocationType s) = coordinates)
  /\ (forall s, Forall (fun a => isDigit a = true) s ->
                (5 <= length s <= 10)%nat ->
                type (detectLocationType s) = zipcode)
  /\ (forall a b, Forall (fun x => isDigit x = true) a ->
                  Forall (fun x => isDigit x = true) b ->
                  length a = 5%nat -> length b = 4%nat ->
                  type (detectLocationType (a ++ [c_minus] ++ b)) = zipcode)
  /\ (forall P,
        resolveLocation P input None
        = resolveByType P (detectLocationType (trim input))
        /\ resolveLocation P input (Some (lit "auto"))
           = resolveByType P (detectLocationType (trim input))).
Proof.
  unfold detectLocationType.
  split; [|split; [|split; [|split; [|split; [|split; [|split; [|split; [|split]]]]]]]];
    [| | | | | | | | |intros P; split; reflexivity].
  - destruct (isCoordinates (trim input)); [reflexivity|].
    destruct (isZipCode (trim input)); [reflexivity|].
    destruct (isLandmark (trim input)); [reflexivity|].
    destruct (isCity (trim input)); reflexivity.
  - intros ->. reflexivity.
  - intros -> ->. reflexivity.
  - intros -> -> ->. reflexivity.
  - intros -> -> -> ->. reflexivity.
  - intros -> -> -> ->. reflexivity.
  - intros s Hs.
    assert (Ht : trim s = s).
    { destruct (test_sound _ _ Hs) as [c Hc].
      apply decimalPattern_sem in Hc.
      destruct Hc as [n1 [ws [n2 [-> [Hn1 [Hn2 [H1 [_ H2]]]]]]]].
      apply trim_fixed.
      - intros a s' E. destruct n1 as [|a1 n1]; [congruence|].
        simpl in E. inversion E; subst.
        apply safe_not_space, num_char_safe. now inversion H1.
      - intros s' z E.
        destruct (exists_last Hn2) as [n2' [z' ->]].
        rewrite !app_assoc in E. apply app_inj_tail in E. destruct E as [_ <-].
        apply Forall_app in H2. destruct H2 as [_ H2].
        apply safe_not_space, num_char_safe. now inversion H2. }
    rewrite Ht. unfold isCoordinates. rewrite Hs. reflexivity.
  - intros s Hs Hlen.
    apply (detect_zip (digits_zip_chars Hs) (isZipCode_digits Hs Hlen)).
  - intros a b Ha Hb La Lb.
    apply detect_zip; [|now apply isZipCode_plus4].
    apply Forall_app. split; [now apply digits_zip_chars|].
    apply Forall_app. split; [repeat constructor|now apply digits_zip_chars].
Qed.

Lemma detectLocationType_priority_witness :
  type (detectLocationType (RT := asciiRT) (lit "51.5074,-0.1278")) = coordinates
  /\ type (detectLocationType (RT := asciiRT) (lit "12345")) = zipcode
  /\ type (detectLocationType (RT := asciiRT) (lit "12345-6789")) = zipcode
  /\ type (detectLocationType (RT := asciiRT) (lit " Central Park ")) = landmark
  /\ type (detectLocationType (RT := asciiRT) (lit "New York")) = city
  /\ type (detectLocationType (RT := asciiRT) (lit "Rua Augusta, 123")) = address.
Proof.
  pose proof (detectLocationType_priority (RT := asciiRT) (lit " Central Park "))
    as [_ [_ [_ [Hl _]]]].
  pose proof (detectLocationType_priority (RT := asciiRT) (lit "New York"))
    as [_ [_ [_ [_ [Hc _]]]]].
  pose proof (detectLocationType_priority (RT := asciiRT) (lit "Rua Augusta, 123"))
    as [_ [_ [_ [_ [_ [Ha [Hd [Hz [Hp _]]]]]]]]].
  refine (conj _ (conj _ (conj _ (conj _ (conj _ _))))).
  - apply Hd. vm_compute. reflexivity.
  - apply Hz; [repeat constructor|simpl; lia].
  - apply (Hp (lit "12345") (lit "6789")); try reflexivity; repeat constructor.
  - apply Hl; vm_compute; reflexivity.
  - apply Hc; vm_compute; reflexivity.
  - apply Ha; vm_compute; reflexivity.
Defined.

(* ================================================================== *)
(** * The embedding on sample inputs *)
(* ================================================================== *)

Example parseFloat_samples :
  map (fun s => parseFloat (lit s))
      ["51.5074"; "-0.1278"; "  12abc"; "5."; ".5"; "1e3"; "-0"; "1e400"]%string
  = [51.5074; -0.1278; 12; 5; 0.5; 1000; -0; infinity]%float
  /\ map (fun s => isNaN (parseFloat (lit s))) ["abc"; "."; "-"; "e5"]%string
     = [true; true; true; true].
Proof. split; vm_compute; reflexivity. Qed.

Example Number_toString_samples :
  map Number_toString
      [51.5074; -0.1278; 0; -0; 100; 0.1 + 0.2; 1e21; 123456789012345680000;
       0.000001; 1e-7; 5e-324; NaN; neg_infinity]%float
  = map lit
      ["51.5074"; "-0.1278"; "0"; "0"; "100"; "0.30000000000000004"; "1e+21";
       "123456789012345680000"; "0.000001"; "1e-7"; "5e-324"; "NaN";
       "-Infinity"]%string.
Proof. vm_compute. reflexivity. Qed.

Example detectLocationType_samples :
  map (fun s => type (detectLocationType (RT := asciiRT) (lit s)))
      ["51.5074,-0.1278"; "1;2"; "12345"; "12345-6789"; "123456789"; "12345-678";
       "SW1A 1AA"; "K1A 0A6"; " Central Park "; "New York"; "Rua Augusta, 123";
       "a b c d"; "x"]%string
  = [coordinates; coordinates; zipcode; zipcode; zipcode; zipcode;
     zipcode; zipcode; landmark; city; address; address; address]
  /\ type (detectLocationType (RT := asciiRT) []) = address
  /\ type (detectLocationType (RT := asciiRT) dms_sample) = coordinates.
Proof. repeat split; vm_compute; reflexivity. Qed.

Example normalizeCoordinates_samples :
  normalizeCoordinates (RT := asciiRT) dms_sample = lit "-23.5505,-46.63330555555556"
  /\ normalizeCoordinates (RT := asciiRT) (lit "1.5 ; -2") = lit "1.5,-2"
  /\ normalizeCoordinates (RT := asciiRT) (lit "Paris") = lit "Paris".
Proof. repeat split; vm_compute; reflexivity. Qed.

Example generateQueryVariations_sample :
  generateQueryVariations (RT := asciiRT) (lit "Tokio")
  = map lit ["Tokio"; "tokyo"; "tokyo japan"; "Tokio city"; "Tokio town";
             "Tokio village"; "Tokio municipality"]%string.
Proof. vm_compute. reflexivity. Qed.

Example split_ws_samples :
  map (fun s => map (fun w => length w) (split_ws false [] (lit s)))
      ["a  b"; " a"; "a "; " "]%string
  = [[1; 1]; [0; 1]; [1; 0]; [0; 0]]%nat
  /\ split_ws false [] [] = [[]].
Proof. split; vm_compute; reflexivity. Qed.

(* ================================================================== *)
(** * Further properties: white space and the normalizers *)
(* ================================================================== *)

Lemma trimStart_spaces a s :
  Forall (fun c => isWhiteSpace c = true) a -> trimStart (a ++ s) = trimStart s.
Proof.
  induction 1 as [|c a Hc _ IH]; simpl; [reflexivity|]. now rewrite Hc.
Qed.

Lemma trimEnd_spaces s b :
  Forall (fun c => isWhiteSpace c = true) b -> trimEnd (s ++ b) = trimEnd s.
Proof.
  intros Hb. unfold trimEnd. rewrite rev_app_distr.
  rewrite trimStart_spaces; [reflexivity|]. now apply Forall_rev.
Qed.

Lemma trim_spaces_right s b :
  Forall (fun c => isWhiteSpace c = true) b -> trim (s ++ b) = trim s.
Proof.
  intros Hb. unfold trim. induction s as [|c s IH]; simpl.
  - rewrite <- (app_nil_r b), trimStart_spaces by assumption. reflexivity.
  - destruct (isWhiteSpace c); [exact IH|].
    change (c :: s ++ b) with ((c :: s) ++ b). now apply trimEnd_spaces.
Qed.

Lemma trim_spaces a s b :
  Forall (fun c => isWhiteSpace c = true) a ->
  Forall (fun c => isWhiteSpace c = true) b ->
  trim (a ++ s ++ b) = trim s.
Proof.
  intros Ha Hb. rewrite <- (trim_spaces_right s Hb).
  unfold trim. now rewrite trimStart_spaces.
Qed.

(** X1: white space around the input changes nothing: with any hint,
    [resolveLocation] gives the same outcome for an input and for the
    same input between runs of white space. *)
Theorem resolveLocation_ignores_outer_spaces
    {RT : Runtime} (P : Providers) (a s b : str) (locationType : option str) :
  Forall (fun c => isWhiteSpace c = true) a ->
  Forall (fun c => isWhiteSpace c = true) b ->
  resolveLocation P (a ++ s ++ b) locationType = resolveLocation P s locationType.
Proof.
  intros Ha Hb. unfold resolveLocation. now rewrite (trim_spaces s Ha Hb).
Qed.

Lemma resolveLocation_ignores_outer_spaces_witness :
  resolveLocation (RT := asciiRT) keyless (lit "  12345 ") None
  = resolveLocation (RT := asciiRT) keyless (lit "12345") None.
Proof.
  apply (resolveLocation_ignores_outer_spaces (RT := asciiRT) keyless
           (a := lit "  ") (lit "12345") (b := lit " ") None).
  - repeat constructor.
  - repeat constructor.
Defined.

Lemma filter_idempotent {A : Type} (f : A -> bool) (l : list A) :
  filter f (filter f l) = filter f l.
Proof.
  induction l as [|x l IH]; simpl; [reflexivity|].
  destruct (f x) eqn:E; simpl; [rewrite E; now f_equal|assumption].
Qed.

Lemma filter_all {A : Type} (f : A -> bool) (l : list A) :
  Forall (fun x => f x = true) l -> filter f l = l.
Proof.
  induction 1 as [|x l Hx _ IH]; simpl; [reflexivity|]. rewrite Hx. now f_equal.
Qed.

Lemma normalizeZipCode_filter input :
  normalizeZipCode input = filter (fun c => negb (isWhiteSpace c)) input.
Proof.
  unfold normalizeZipCode.
  induction (filter (fun c => negb (isWhiteSpace c)) input) as [|c l IH];
    simpl; [reflexivity|].
  rewrite IH. f_equal.
  destruct (char_eqb c c_minus) eqn:E; [|reflexivity].
  symmetry. now apply char_eqb_eq.
Qed.

(** X2: [normalizeZipCode] removes every white space character and
    nothing else: its result has none, keeps the other characters in
    their order, is unchanged by a second pass, and an input without
    white space is returned as it is. *)
Theorem normalizeZipCode_strips_spaces (input : str) :
  Forall (fun c => isWhiteSpace c = false) (normalizeZipCode input)
  /\ normalizeZipCode input = filter (fun c => negb (isWhiteSpace c)) input
  /\ normalizeZipCode (normalizeZipCode input) = normalizeZipCode input
  /\ (Forall (fun c => isWhiteSpace c = false) input -> normalizeZipCode input = input).
Proof.
  rewrite !normalizeZipCode_filter. repeat split.
  - apply Forall_forall. intros c Hc. apply filter_In in Hc.
    destruct Hc as [_ Hc]. now destruct (isWhiteSpace c).
  - apply filter_idempotent.
  - intros H. apply filter_all. eapply Forall_impl; [|exact H].
    intros c Hc. simpl. now rewrite Hc.
Qed.

Lemma digits_filter_digits l :
  Forall (fun c => isDigit c = true) (filter isDigit l).
Proof.
  apply Forall_forall. intros c Hc. now apply filter_In in Hc.
Qed.

Lemma normalizePostalCode_digits postalCode :
  filter isDigit (normalizePostalCode postalCode) = filter isDigit postalCode.
Proof.
  unfold normalizePostalCode.
  pose proof (digits_filter_digits postalCode) as Hd.
  set (cleaned := filter isDigit postalCode) in *.
  destruct (length cleaned =? 8)%nat.
  - destruct (Forall_firstn_skipn 5 Hd) as [H1 H2].
    rewrite !filter_app. change (filter isDigit (lit "-")) with (@nil char).
    rewrite (filter_all _ H1), (filter_all _ H2).
    change (firstn 5 cleaned ++ [] ++ skipn 5 cleaned)
      with (firstn 5 cleaned ++ skipn 5 cleaned).
    apply firstn_skipn.
  - now apply filter_all.
Qed.

(** X3: [normalizePostalCode] keeps exactly the digits of its input,
    in order; its result is made of digits and at most a dash, is
    unchanged by a second pass, and for an input with exactly eight
    digits it is the first five, a dash and the last three. *)
Theorem normalizePostalCode_shape (postalCode : str) :
  filter isDigit (normalizePostalCode postalCode) = filter isDigit postalCode
  /\ Forall (fun c => zip_char c = true) (normalizePostalCode postalCode)
  /\ normalizePostalCode (normalizePostalCode postalCode)
     = normalizePostalCode postalCode
  /\ (length (filter isDigit postalCode) = 8%nat ->
      normalizePostalCode postalCode
      = firstn 5 (filter isDigit postalCode) ++ [c_minus]
        ++ skipn 5 (filter isDigit postalCode)
      /\ length (normalizePostalCode postalCode) = 9%nat)
  /\ (length (filter isDigit postalCode) <> 8%nat ->
      normalizePostalCode postalCode = filter isDigit postalCode).
Proof.
  split; [apply normalizePostalCode_digits|].
  split; [|split; [|split]].
  - unfold normalizePostalCode.
    pose proof (digits_filter_digits postalCode) as Hd.
    set (cleaned := filter isDigit postalCode) in *.
    destruct (length cleaned =? 8)%nat.
    + destruct (Forall_firstn_skipn 5 Hd) as [H1 H2].
      repeat (apply Forall_app; split);
        try (apply digits_zip_chars; assumption).
      repeat constructor.
    + now apply digits_zip_chars.
  - unfold normalizePostalCode at 1.
    rewrite normalizePostalCode_digits.
    reflexivity.
  - intros H8. unfold normalizePostalCode.
    rewrite H8. simpl Nat.eqb. cbv iota. split; [reflexivity|].
    change (lit "-") with [c_minus].
    rewrite !length_app, length_firstn, length_skipn, H8. reflexivity.
  - intros H8. unfold normalizePostalCode.
    apply Nat.eqb_neq in H8. now rewrite H8.
Qed.

Lemma normalizePostalCode_shape_witness :
  normalizePostalCode (lit "01310 100") = lit "01310-100"
  /\ normalizePostalCode (lit "SW1A 1AA") = lit "11".
Proof.
  destruct (normalizePostalCode_shape (lit "01310 100")) as [_ [_ [_ [H8 _]]]].
  destruct (normalizePostalCode_shape (lit "SW1A 1AA")) as [_ [_ [_ [_ Hn]]]].
  split.
  - exact (proj1 (H8 eq_refl)).
  - apply Hn. vm_compute. discriminate.
Defined.

(* ================================================================== *)
(** * Further properties: what the chains throw *)
(* ================================================================== *)

(** X4: no axios error leaves [searchPostalCode]: without an API key
    it throws the configuration error before any request; a 404 of the
    provider becomes a [LocationNotFoundError] carrying the postal code
    as it was passed in, a 401 and a 429 become their own messages, any
    other axios failure a "ZipCodeBase API error"; what is not an axios
    error is rethrown as it is. *)
Theorem searchPostalCode_translates_errors
    (P : Providers) (postalCode : str) (e : exn) :
  searchPostalCode P postalCode = Throw e ->
  isAxiosError e = false
  /\ (isAvailable P = false ->
      e = Error (lit "ZipCodeBase API key not configured"))
  /\ (forall e', isAvailable P = true ->
        zipCodeBase_search P (normalizePostalCode postalCode) = Throw e' ->
        isAxiosError e' = true ->
        e = (if has_status e' 404 then LocationNotFoundError postalCode
             else if has_status e' 401 then Error (lit "Invalid ZipCodeBase API key")
             else if has_status e' 429
             then Error (lit "ZipCodeBase API rate limit exceeded")
             else Error (lit "ZipCodeBase API error: " ++ message e'))).
Proof.
  unfold searchPostalCode, isAvailable.
  destruct (truthy (ZIPCODEBASE_API_KEY P)); simpl.
  - destruct (zipCodeBase_search P (normalizePostalCode postalCode)) as [data|e0] eqn:Ez;
      simpl.
    + destruct (zb_results data) as [results|];
        [destruct (lookup (normalizePostalCode postalCode) results)|]; discriminate.
    + intros He. split; [|split; [discriminate|]].
      * destruct (isAxiosError e0) eqn:Ea.
        -- destruct (has_status e0 404); [inversion He; reflexivity|].
           destruct (has_status e0 401); [inversion He; reflexivity|].
           destruct (has_status e0 429); inversion He; reflexivity.
        -- inversion He; subst. assumption.
      * intros e' _ He' Ha. inversion He'; subst e'. rewrite Ha in He.
        destruct (has_status e0 404); [inversion He; reflexivity|].
        destruct (has_status e0 401); [inversion He; reflexivity|].
        destruct (has_status e0 429); inversion He; reflexivity.
  - intros He. inversion He; subst. split; [reflexivity|].
    split; [reflexivity|discriminate].
Qed.

Lemma searchPostalCode_translates_errors_witness :
  searchPostalCode keyed_not_found (lit "99999") = Throw (LocationNotFoundError (lit "99999"))
  /\ isAxiosError (LocationNotFoundError (lit "99999")) = false.
Proof.
  assert (E : searchPostalCode keyed_not_found (lit "99999")
              = Throw (LocationNotFoundError (lit "99999")))
    by (vm_compute; reflexivity).
  split; [exact E|].
  exact (proj1 (searchPostalCode_translates_errors keyed_not_found (lit "99999") E)).
Defined.

Lemma zip_openMeteo_errors P li e :
  zip_openMeteo P li = Throw e ->
  isAxiosError e = false
  /\ (axios_only (openMeteo_search_name P (normalized li) 1) ->
      e = LocationNotFoundError (value li)
      \/ exists e', e = Error (lit "Geocoding service error: " ++ message e')).
Proof.
  unfold zip_openMeteo, axios_only.
  destruct (openMeteo_search_name P (normalized li) 1) as [data|e0]; simpl.
  - destruct (om_results data) as [[|h t]|]; simpl; try discriminate;
      intros He; inversion He; subst; split; auto.
  - destruct (isAxiosError e0) eqn:Ea.
    + destruct (has_status e0 404 || has_status e0 400);
        intros He; inversion He; subst; split; eauto.
    + intros He. inversion He; subst. split; [assumption|].
      intros H. congruence.
Qed.

(** X5: what [resolveZipCode] throws is never an axios error; when the
    forward geocoder can only fail the way axios fails, it is either
    the [LocationNotFoundError] carrying the original input or a plain
    error whose message starts with "Geocoding service error: ". *)
Theorem resolveZipCode_errors
    {RT : Runtime} (P : Providers) (li : LocationInput) (e : exn) :
  resolveZipCode P li = Throw e ->
  isAxiosError e = false
  /\ (axios_only (openMeteo_search_name P (normalized li) 1) ->
      e = LocationNotFoundError (value li)
      \/ exists e', e = Error (lit "Geocoding service error: " ++ message e')).
Proof.
  unfold resolveZipCode.
  destruct (zip_primary P li); [discriminate|]. apply zip_openMeteo_errors.
Qed.

Lemma resolveZipCode_errors_witness :
  exists e,
    resolveZipCode (RT := asciiRT) rate_limited (text_input zipcode "12345") = Throw e
    /\ isAxiosError e = false
    /\ (e = LocationNotFoundError (lit "12345")
        \/ exists e', e = Error (lit "Geocoding service error: " ++ message e')).
Proof.
  assert (E : resolveZipCode (RT := asciiRT) rate_limited (text_input zipcode "12345")
              = Throw (Error (lit "Geocoding service error: Request failed with status code 429")))
    by (vm_compute; reflexivity).
  destruct (resolveZipCode_errors (RT := asciiRT) _ _ E) as [H1 H2].
  eexists. split; [exact E|]. split; [exact H1|].
  apply H2. reflexivity.
Defined.

(** X6: when neither provider of the postal chain has the code, the
    caller gets the typed [LocationNotFoundError] with the original
    input: the postal lookup is unavailable, throws or has no
    candidates, and the forward geocoder answers with no results or
    with status 404 or 400. *)
Theorem resolveZipCode_not_found_is_typed
    {RT : Runtime} (P : Providers) (li : LocationInput) :
  (isAvailable P = false
   \/ (exists e, searchPostalCode P (normalized li) = Throw e)
   \/ searchPostalCode P (normalized li) = Ok []) ->
  ((exists data, openMeteo_search_name P (normalized li) 1 = Ok data
                 /\ no_results data = true)
   \/ (exists st m, openMeteo_search_name P (normalized li) 1
                    = Throw (AxiosError (Some st) m)
                    /\ (st = 404%N \/ st = 400%N))) ->
  resolveZipCode P li = Throw (LocationNotFoundError (value li)).
Proof.
  intros Hp Ho.
  assert (E : resolveZipCode P li = zip_openMeteo P li).
  { unfold resolveZipCode, zip_primary.
    destruct Hp as [-> | [[e ->] | ->]]; [reflexivity| |];
      destruct (isAvailable P); reflexivity. }
  rewrite E. unfold zip_openMeteo.
  destruct Ho as [[data [-> Hn]] | [st [m [-> Hst]]]]; simpl.
  - destruct (no_results_spec _ Hn) as [-> | ->]; reflexivity.
  - destruct Hst as [-> | ->]; reflexivity.
Qed.

Lemma resolveZipCode_not_found_is_typed_witness :
  resolveZipCode (RT := asciiRT) keyed_not_found (text_input zipcode "99999")
  = Throw (LocationNotFoundError (lit "99999")).
Proof.
  apply (resolveZipCode_not_found_is_typed (RT := asciiRT) keyed_not_found
           (text_input zipcode "99999")).
  - right. left. eexists. vm_compute. reflexivity.
  - right. exists 404%N, (lit "Request failed with status code 404").
    split; [reflexivity|now left].
Defined.

Lemma resolveTextLocation_throws
    {RT : Runtime} (P : Providers) (li : LocationInput) (e : exn) :
  resolveTextLocation P li = Throw e ->
  exists e', e = Error (lit "Geocoding service error: " ++ message e').
Proof.
  unfold resolveTextLocation.
  destruct (openMeteo_search_name P (normalized li) 1) as [data|e0];
    cbn [try_catch bind].
  - destruct (om_results data) as [[|h t]|]; cbn [try_catch bind];
      try discriminate;
      destruct (searchWithVariations P (value li)); cbn [try_catch bind];
      try discriminate;
      intros He; exists (LocationNotFoundError (value li)); congruence.
  - intros He. exists e0. congruence.
Qed.



(* ================================================================== *)
(** * Further properties: the status the error handler answers *)
(* ================================================================== *)

Lemma startsWith_app p r : startsWith p (p ++ r) = true.
Proof.
  induction p as [|c p IH]; simpl; [reflexivity|].
  unfold char_eqb. now rewrite N.eqb_refl.
Qed.

Lemma includes_prefix p r : includes (p ++ r) p = true.
Proof.
  destruct (p ++ r) eqn:E; simpl; rewrite <- E, startsWith_app; reflexivity.
Qed.

Lemma errorHandler_geocoding_error m :
  errorHandler (as_thrown (Error (lit "Geocoding service error: " ++ m)))
  = {| er_statusCode := 502;
       er_message := lit "Geocoding service error: " ++ m;
       er_details := None |}.
Proof.
  unfold as_thrown, errorHandler.
  replace (str_eqb (lit "Error") (lit "MongoError")) with false by reflexivity.
  replace (str_eqb (lit "Error") (lit "ValidationError")) with false by reflexivity.
  replace (str_eqb (lit "Error") (lit "CastError")) with false by reflexivity.
  cbn [andb].
  assert (Hin : includes (lit "Geocoding service error: " ++ m)
                         (lit "Geocoding service error") = true).
  { change (lit "Geocoding service error: ")
      with (lit "Geocoding service error" ++ lit ": ").
    rewrite <- app_assoc. apply includes_prefix. }
  rewrite Hin, orb_true_r. reflexivity.
Qed.

(** X8: a failed text lookup is always answered with status 502 and
    the wrapped message, a lookup that found nothing included: the
    message contains "Location not found" as well, but the test for
    "Geocoding service error" comes first in the handler. *)
Theorem text_failure_is_bad_gateway
    {RT : Runtime} (P : Providers) (li : LocationInput) (e : exn) :
  resolveTextLocation P li = Throw e ->
  er_statusCode (errorHandler (as_thrown e)) = 502%N
  /\ er_message (errorHandler (as_thrown e)) = message e
  /\ er_details (errorHandler (as_thrown e)) = None.
Proof.
  intros He. apply resolveTextLocation_throws in He.
  destruct He as [e' ->]. rewrite errorHandler_geocoding_error. repeat split.
Qed.

Lemma text_failure_is_bad_gateway_witness :
  exists e,
    resolveTextLocation (RT := asciiRT) silent (text_input city "Nonexistent Placeqzx123")
    = Throw e
    /\ er_statusCode (errorHandler (as_thrown e)) = 502%N
    /\ includes (er_message (errorHandler (as_thrown e))) (lit "Location not found") = true.
Proof.
  assert (E : resolveTextLocation (RT := asciiRT) silent
                (text_input city "Nonexistent Placeqzx123")
              = Throw (Error (lit "Geocoding service error: Location not found: Nonexistent Placeqzx123")))
    by (vm_compute; reflexivity).
  eexists. split; [exact E|].
  destruct (text_failure_is_bad_gateway (RT := asciiRT) _ _ E) as [H1 [H2 _]].
  split; [exact H1|]. rewrite H2. vm_compute. reflexivity.
Defined.

(** X9: a failed postal lookup, when the forward geocoder can only
    fail the way axios fails, is answered with 404 and "Location not
    found: " followed by the original input, or with 502. *)
Theorem zip_failure_status
    {RT : Runtime} (P : Providers) (li : LocationInput) (e : exn) :
  resolveZipCode P li = Throw e ->
  axios_only (openMeteo_search_name P (normalized li) 1) ->
  (er_statusCode (errorHandler (as_thrown e)) = 404%N
   /\ er_message (errorHandler (as_thrown e)) = lit "Location not found: " ++ value li)
  \/ er_statusCode (errorHandler (as_thrown e)) = 502%N.
Proof.
  intros He Ha. unfold resolveZipCode in He.
  destruct (zip_primary P li); [discriminate|].
  destruct (zip_openMeteo_errors _ _ He) as [_ H].
  destruct (H Ha) as [-> | [e' ->]].
  - left. split; reflexivity.
  - right. now rewrite errorHandler_geocoding_error.
Qed.

Lemma zip_failure_status_witness :
  exists e,
    resolveZipCode (RT := asciiRT) keyed_not_found (text_input zipcode "99999") = Throw e
    /\ errorHandler (as_thrown e)
       = {| er_statusCode := 404; er_message := lit "Location not found: 99999";
            er_details := None |}.
Proof.
  assert (E : resolveZipCode (RT := asciiRT) keyed_not_found (text_input zipcode "99999")
              = Throw (LocationNotFoundError (lit "99999")))
    by (vm_compute; reflexivity).
  eexists. split; [exact E|].
  destruct (zip_failure_status (RT := asciiRT) _ _ E) as [[H1 H2]|H].
  - reflexivity.
  - reflexivity.
  - vm_compute in H. discriminate.
Defined.

(** X10: coordinates out of range are answered with status 500, not
    with a client error: the only error [resolveCoordinates] throws is
    the plain invalid-coordinates error, which none of the handler's
    tests recognises, and it is thrown whatever the providers would
    answer. *)
Theorem invalid_coordinates_is_internal_error
    (P : Providers) (li : LocationInput) (e : exn) :
  resolveCoordinates P li = Throw e ->
  e = invalid_coordinates
  /\ errorHandler (as_thrown e)
     = {| er_statusCode := 500; er_message := message invalid_coordinates;
          er_details := None |}
  /\ (forall P', resolveCoordinates P' li = Throw invalid_coordinates).
Proof.
  intros He.
  destruct (resolveCoordinates_cases P li) as [[G E]|[_ [d [_ E]]]];
    rewrite E in He; [|discriminate].
  inversion He; subst e. split; [reflexivity|]. split; [vm_compute; reflexivity|].
  intros P'. destruct (resolveCoordinates_cases P' li) as [[_ E']|[G' _]];
    [exact E'|congruence].
Qed.

Lemma invalid_coordinates_is_internal_error_witness :
  er_statusCode (errorHandler (as_thrown invalid_coordinates)) = 500%N
  /\ resolveCoordinates silent (text_input coordinates "91,0") = Throw invalid_coordinates.
Proof.
  assert (E : resolveCoordinates silent (text_input coordinates "91,0")
              = Throw invalid_coordinates) by (vm_compute; reflexivity).
  destruct (invalid_coordinates_is_internal_error _ _ E) as [_ [H _]].
  split; [now rewrite H|exact E].
Defined.

(* ================================================================== *)
(** * Further properties: the query-variation fallback *)
(* ================================================================== *)

Lemma existsb_str_eqb x seen : existsb (str_eqb x) seen = true <-> In x seen.
Proof.
  rewrite existsb_exists. split.
  - intros [y [Hin Hy]]. apply str_eqb_eq in Hy. now subst.
  - intros Hin. exists x. split; [assumption|apply str_eqb_refl].
Qed.

Lemma dedupe_acc_In xs :
  forall seen y, In y (dedupe_acc seen xs) <-> In y xs /\ ~ In y seen.
Proof.
  induction xs as [|x xs IH]; intros seen y; simpl; [tauto|].
  destruct (existsb (str_eqb x) seen) eqn:E.
  - apply existsb_str_eqb in E. rewrite IH. split.
    + intros [H1 H2]. auto.
    + intros [[<- | H1] H2]; [contradiction|auto].
  - assert (Hx : ~ In x seen).
    { intros Hin. apply existsb_str_eqb in Hin. congruence. }
    simpl. rewrite IH. simpl. split.
    + intros [<- | [H1 H2]]; [auto|]. split; [auto|]. intros H. apply H2. now right.
    + intros [[<- | H1] H2]; [now left|].
      destruct (list_eq_dec N.eq_dec x y) as [->|Hne]; [now left|].
      right. split; [assumption|]. intros [H|H]; [contradiction|contradiction].
Qed.

Lemma dedupe_acc_NoDup xs : forall seen, NoDup (dedupe_acc seen xs).
Proof.
  induction xs as [|x xs IH]; intros seen; simpl; [constructor|].
  destruct (existsb (str_eqb x) seen); [apply IH|].
  constructor; [|apply IH].
  rewrite dedupe_acc_In. intros [_ H]. apply H. now left.
Qed.

Lemma fold_left_append {A : Type} (c : A -> bool) (g : A -> list str) (l : list A) :
  forall acc,
    exists t,
      fold_left (fun vs x => if c x then vs ++ g x else vs) l acc = acc ++ t
      /\ (forall v, In v t <-> exists x, In x l /\ c x = true /\ In v (g x)).
Proof.
  induction l as [|x l IH]; intros acc; simpl.
  - exists []. split; [now rewrite app_nil_r|].
    intros v. split; [intros []|intros [x [[] _]]].
  - destruct (IH (if c x then acc ++ g x else acc)) as [t [E Ht]].
    destruct (c x) eqn:Ec.
    + exists (g x ++ t). split; [now rewrite E, app_assoc|].
      intros v. rewrite in_app_iff, Ht. split.
      * intros [H|[y [Hy [Hc Hv]]]]; [exists x; auto|exists y; auto].
      * intros [y [[<- | Hy] [Hc Hv]]]; [now left|right; exists y; auto].
    + exists t. split; [assumption|].
      intros v. rewrite Ht. split.
      * intros [y [Hy [Hc Hv]]]. exists y. auto.
      * intros [y [[<- | Hy] [Hc Hv]]]; [congruence|exists y; auto].
Qed.

Lemma generateQueryVariations_head {RT : Runtime} (query : str) :
  exists rest, generateQueryVariations query = query :: rest.
Proof.
  unfold generateQueryVariations. cbv zeta.
  destruct (fold_left_append (fun kv => includes (toLowerCase query) (fst kv))
              (fun kv => snd kv) corrections [query]) as [t1 [E1 _]].
  rewrite E1.
  destruct (fold_left_append (fun suffix => negb (includes (toLowerCase query) suffix))
              (fun suffix => [query ++ lit " " ++ suffix]) suffixes ([query] ++ t1))
    as [t2 [E2 _]].
  match goal with
  | |- context [dedupe ?x] =>
      replace x with (([query] ++ t1) ++ t2) by (symmetry; exact E2)
  end.
  simpl. eexists. reflexivity.
Qed.

(** X11: the query variations start with the query itself and hold no
    string twice; they are the query, the corrections listed under
    every key that occurs in the lower-cased query, and the query
    followed by a space and each suffix that does not occur in it. *)
Theorem generateQueryVariations_shape {RT : Runtime} (query : str) :
  (exists rest, generateQueryVariations query = query :: rest)
  /\ NoDup (generateQueryVariations query)
  /\ (forall v,
        In v (generateQueryVariations query) <->
        v = query
        \/ (exists kv, In kv corrections
                       /\ includes (toLowerCase query) (fst kv) = true
                       /\ In v (snd kv))
        \/ (exists suffix, In suffix suffixes
                           /\ includes (toLowerCase query) suffix = false
                           /\ v = query ++ lit " " ++ suffix)).
Proof.
  unfold generateQueryVariations. cbv zeta.
  destruct (fold_left_append (fun kv => includes (toLowerCase query) (fst kv))
              (fun kv => snd kv) corrections [query]) as [t1 [E1 H1]].
  rewrite E1.
  destruct (fold_left_append (fun suffix => negb (includes (toLowerCase query) suffix))
              (fun suffix => [query ++ lit " " ++ suffix]) suffixes ([query] ++ t1))
    as [t2 [E2 H2]].
  match goal with
  | |- context [dedupe ?x] =>
      replace x with (([query] ++ t1) ++ t2) by (symmetry; exact E2)
  end.
  split; [|split].
  - simpl. eexists. reflexivity.
  - apply dedupe_acc_NoDup.
  - intros v. unfold dedupe. rewrite dedupe_acc_In, !in_app_iff, H1, H2.
    split.
    + intros [Hin _]. destruct Hin as [[Hq | Hc] | Hs].
      * destruct Hq as [<- | []]. now left.
      * right. now left.
      * destruct Hs as [x [Hx [Hc Hv]]]. destruct Hv as [<- | []].
        right. right. exists x. repeat split; auto.
        now destruct (includes (toLowerCase query) x).
    + intros H. split; [|intros []].
      destruct H as [-> | [H | [x [Hx [Hc ->]]]]].
      * left. left. now left.
      * left. now right.
      * right. exists x. split; [assumption|]. split; [now rewrite Hc|now left].
Qed.

Lemma try_queries_source P originalQuery queries r :
  try_queries P originalQuery queries = Ok r ->
  exists v, In v queries /\ searchLocation P v = Ok r
            /\ str_eqb (name r) (lit "Unknown Location") = false.
Proof.
  induction queries as [|q qs IH]; cbn [try_queries]; [discriminate|].
  destruct (searchLocation P q) as [r'|e] eqn:E.
  - destruct (str_eqb (name r') (lit "Unknown Location")) eqn:En; cbn [negb].
    + intros H. destruct (IH H) as [v [Hv Hr]]. exists v. split; [now right|assumption].
    + intros [= <-]. exists q. split; [now left|auto].
  - intros H. destruct (IH H) as [v [Hv Hr]]. exists v. split; [now right|assumption].
Qed.

(** X12: a result of [searchWithVariations] is what [searchLocation]
    gave for one of the variations, and its name is not the
    placeholder "Unknown Location"; the original query is asked first,
    so when it has a usable answer, that answer is the result. *)
Theorem searchWithVariations_source
    {RT : Runtime} (P : Providers) (originalQuery : str) (r : ILocation) :
  searchWithVariations P originalQuery = Ok r ->
  (exists v, In v (generateQueryVariations originalQuery)
             /\ searchLocation P v = Ok r)
  /\ name r <> lit "Unknown Location"
  /\ resolvedBy r = by_geocoding
  /\ (forall r0, searchLocation P originalQuery = Ok r0 ->
                 name r0 <> lit "Unknown Location" -> r = r0).
Proof.
  unfold searchWithVariations. intros H.
  pose proof (try_queries_tag _ _ _ H) as Htag.
  destruct (try_queries_source _ _ _ H) as [v [Hv [Hs Hn]]].
  split; [eauto|]. split; [|split; [assumption|]].
  - intros E. rewrite E, str_eqb_refl in Hn. discriminate.
  - intros r0 H0 Hn0.
    destruct (generateQueryVariations_head originalQuery) as [rest Er].
    rewrite Er in H. cbn [try_queries] in H. rewrite H0 in H.
    destruct (str_eqb (name r0) (lit "Unknown Location")) eqn:E0.
    + apply str_eqb_eq in E0. contradiction.
    + cbn [negb] in H. congruence.
Qed.

Lemma searchWithVariations_source_witness :
  exists r,
    searchWithVariations (RT := asciiRT) fallback_only (lit "Central Park") = Ok r
    /\ name r = lit "New York, United States"
    /\ name r <> lit "Unknown Location".
Proof.
  assert (E : searchWithVariations (RT := asciiRT) fallback_only (lit "Central Park")
              = Ok {| name := lit "New York, United States";
                      country := lit "United States"; admin1 := lit "New York";
                      lat := 40.7825; lon := -73.9655; resolvedBy := by_geocoding |})
    by (vm_compute; reflexivity).
  eexists. split; [exact E|]. split; [reflexivity|].
  exact (proj1 (proj2 (searchWithVariations_source (RT := asciiRT) _ _ E))).
Defined.

(* ================================================================== *)
(** * Further properties: the fields of a resolved location *)
(* ================================================================== *)









Lemma SFcompare_none x y :
  SFcompare x y = None -> x = S754_nan \/ y = S754_nan.
Proof.
  destruct x as [s|s| |s m e], y as [s'|s'| |s' m' e']; simpl; auto; discriminate.
Qed.

Lemma isNaN_false_spec x : isNaN x = false -> Prim2SF x <> S754_nan.
Proof.
  unfold isNaN, is_nan. rewrite eqb_spec. intros H E. rewrite E in H. discriminate.
Qed.

Lemma not_lt_ge x y : isNaN x = false -> isNaN y = false ->
  lt x y = false -> ge x y = true.
Proof.
  intros Hx Hy. unfold lt, ge. rewrite ltb_spec, leb_spec. unfold SFltb, SFleb.
  rewrite (SFcompare_swap (Prim2SF x) (Prim2SF y)).
  destruct (SFcompare (Prim2SF x) (Prim2SF y)) as [[]|] eqn:E; simpl; try congruence.
  apply SFcompare_none in E. apply isNaN_false_spec in Hx, Hy. tauto.
Qed.

Lemma not_gt_le x y : isNaN x = false -> isNaN y = false ->
  gt x y = false -> le x y = true.
Proof.
  intros Hx Hy. unfold gt, le. rewrite ltb_spec, leb_spec. unfold SFltb, SFleb.
  rewrite (SFcompare_swap (Prim2SF x) (Prim2SF y)).
  destruct (SFcompare (Prim2SF x) (Prim2SF y)) as [[]|] eqn:E; simpl; try congruence.
  apply SFcompare_none in E. apply isNaN_false_spec in Hx, Hy. tauto.
Qed.

(** X14: a location that [resolveCoordinates] returns never has a
    number outside the valid ranges: its latitude is NaN or between
    -90 and 90, its longitude NaN or between -180 and 180. *)
Theorem resolveCoordinates_result_in_range
    (P : Providers) (li : LocationInput) (r : ILocation) :
  resolveCoordinates P li = Ok r ->
  (isNaN (lat r) = true \/ (ge (lat r) (-90) = true /\ le (lat r) 90 = true))
  /\ (isNaN (lon r) = true \/ (ge (lon r) (-180) = true /\ le (lon r) 180 = true)).
Proof.
  intros Hr.
  destruct (resolveCoordinates_cases P li) as [[_ E]|[G [d [_ E]]]];
    rewrite E in Hr; [discriminate|].
  injection Hr as <-. cbn [lat lon].
  apply orb_false_elim in G. destruct G as [G G4].
  apply orb_false_elim in G. destruct G as [G G3].
  apply orb_false_elim in G. destruct G as [G1 G2].
  split.
  - destruct (isNaN (parsed_lat li)) eqn:N; [now left|right].
    split; [apply not_lt_ge|apply not_gt_le]; auto.
  - destruct (isNaN (parsed_lon li)) eqn:N; [now left|right].
    split; [apply not_lt_ge|apply not_gt_le]; auto.
Qed.

Lemma resolveCoordinates_result_in_range_witness :
  exists r,
    resolveCoordinates silent (text_input coordinates "48.8566,2.3522") = Ok r
    /\ (isNaN (lat r) = true \/ (ge (lat r) (-90) = true /\ le (lat r) 90 = true))
    /\ (isNaN (lon r) = true \/ (ge (lon r) (-180) = true /\ le (lon r) 180 = true)).
Proof.
  destruct (resolveCoordinates silent (text_input coordinates "48.8566,2.3522"))
    as [r|e] eqn:E; [|vm_compute in E; discriminate].
  exists r. split; [reflexivity|].
  exact (resolveCoordinates_result_in_range _ _ E).
Defined.

(* ================================================================== *)
(** * Further properties: coordinates, from text to two numbers *)
(* ================================================================== *)

Lemma full_match_complete r s c : Sem r s c -> exists c', full_match r s = Some c'.
Proof.
  intros H. apply test_complete in H. unfold test in H.
  destruct (full_match r s) as [c'|]; [eauto|discriminate].
Qed.

(** A run of one class followed by something outside the class can be
    read in one way only. *)
Lemma span_unique (Q : char -> bool) l1 :
  forall r1 l2 r2,
    Forall (fun c => Q c = true) l1 -> Forall (fun c => Q c = true) l2 ->
    match r1 with [] => True | x :: _ => Q x = false end ->
    match r2 with [] => True | x :: _ => Q x = false end ->
    l1 ++ r1 = l2 ++ r2 -> l1 = l2 /\ r1 = r2.
Proof.
  induction l1 as [|a l1 IH]; intros r1 l2 r2 H1 H2 S1 S2 E.
  - destruct l2 as [|b l2]; [auto|]. simpl in E. subst r1.
    inversion H2; subst. congruence.
  - destruct l2 as [|b l2].
    + simpl in E. subst r2. inversion H1; subst. congruence.
    + simpl in E. inversion E; subst. inversion H1; subst. inversion H2; subst.
      destruct (IH r1 l2 r2) as [-> ->]; auto.
Qed.

Lemma space_not_num c : isWhiteSpace c = true -> num_char c = false.
Proof.
  intros H. destruct (num_char c) eqn:E; [|reflexivity].
  apply num_char_safe, safe_not_space in E. congruence.
Qed.

Lemma altPattern_intro g1 ws1 sep ws2 g2 :
  Sem decimal_number g1 [] -> Sem decimal_number g2 [] ->
  Forall (fun c => isWhiteSpace c = true) ws1 ->
  Forall (fun c => isWhiteSpace c = true) ws2 ->
  sep = c_comma \/ sep = c_semicolon ->
  Sem altPattern (g1 ++ ws1 ++ [sep] ++ ws2 ++ g2) [g1; g2].
Proof.
  intros H1 H2 Hw1 Hw2 Hsep. unfold altPattern, OneOf, space. cbn [seqs].
  change [g1; g2] with ([g1] ++ [] ++ [] ++ [] ++ [g2]).
  constructor; [now constructor|].
  constructor; [now apply star_cls_intro|].
  constructor; [constructor; destruct Hsep as [-> | ->]; reflexivity|].
  constructor; [now apply star_cls_intro|now constructor].
Qed.

Lemma test_decimal_number g :
  test decimal_number g = true -> Sem decimal_number g [].
Proof.
  intros H. apply test_sound in H. destruct H as [c H].
  destruct (decimal_number_sem H) as [-> _]. assumption.
Qed.

Lemma alt_text_no_degree g1 ws1 sep ws2 g2 :
  Forall (fun a => num_char a = true) g1 -> Forall (fun a => num_char a = true) g2 ->
  Forall (fun c => isWhiteSpace c = true) ws1 ->
  Forall (fun c => isWhiteSpace c = true) ws2 ->
  sep = c_comma \/ sep = c_semicolon ->
  ~ In c_degree (g1 ++ ws1 ++ [sep] ++ ws2 ++ g2).
Proof.
  intros H1 H2 Hw1 Hw2 Hsep Hin.
  rewrite Forall_forall in H1, H2, Hw1, Hw2.
  repeat (apply in_app_or in Hin; destruct Hin as [Hin|Hin]).
  - apply H1 in Hin. discriminate.
  - apply Hw1 in Hin. discriminate.
  - destruct Hin as [Hd | []]. destruct Hsep; subst; discriminate.
  - apply Hw2 in Hin. discriminate.
  - apply H2 in Hin. discriminate.
Qed.

(** X15: for two decimal numbers with a comma or a semicolon between
    them and any white space around the separator,
    [normalizeCoordinates] gives the first number, a comma and the
    second number. *)
Theorem normalizeCoordinates_separated_pair
    {RT : Runtime} (g1 ws1 ws2 g2 : str) (sep : char) :
  test decimal_number g1 = true ->
  test decimal_number g2 = true ->
  Forall (fun c => isWhiteSpace c = true) ws1 ->
  Forall (fun c => isWhiteSpace c = true) ws2 ->
  sep = c_comma \/ sep = c_semicolon ->
  normalizeCoordinates (g1 ++ ws1 ++ [sep] ++ ws2 ++ g2) = g1 ++ [c_comma] ++ g2.
Proof.
  intros T1 T2 Hw1 Hw2 Hsep.
  apply test_decimal_number in T1, T2.
  destruct (decimal_number_sem T1) as [_ [Hn1 Hc1]].
  destruct (decimal_number_sem T2) as [_ [Hn2 Hc2]].
  unfold normalizeCoordinates.
  rewrite full_match_none.
  2:{ intros c Hc. apply dmsMatchPattern_degree in Hc.
      now apply (alt_text_no_degree Hc1 Hc2 Hw1 Hw2 Hsep). }
  destruct (full_match_complete (altPattern_intro T1 T2 Hw1 Hw2 Hsep)) as [c' E].
  rewrite E. apply full_match_sound, altPattern_sem in E.
  destruct E as [g1' [ws1' [sep' [ws2' [g2' [-> [Es [_ [Hg2' [Hsep' [Hc1' [Hw1' [Hw2' Hc2']]]]]]]]]]]]].
  cbn [group Nat.sub nth].
  assert (Hs : isWhiteSpace sep = false) by (destruct Hsep as [-> | ->]; reflexivity).
  assert (Hs' : isWhiteSpace sep' = false) by (destruct Hsep' as [-> | ->]; reflexivity).
  assert (Hq : num_char sep = false) by (destruct Hsep as [-> | ->]; reflexivity).
  assert (Hq' : num_char sep' = false) by (destruct Hsep' as [-> | ->]; reflexivity).
  destruct (span_unique num_char (l1 := g1) (ws1 ++ [sep] ++ ws2 ++ g2)
              (l2 := g1') (ws1' ++ [sep'] ++ ws2' ++ g2')) as [<- E1]; auto.
  { destruct ws1 as [|w ws1]; [exact Hq|].
    apply space_not_num. now inversion Hw1. }
  { destruct ws1' as [|w ws1']; [exact Hq'|].
    apply space_not_num. now inversion Hw1'. }
  destruct (span_unique isWhiteSpace (l1 := ws1) ([sep] ++ ws2 ++ g2)
              (l2 := ws1') ([sep'] ++ ws2' ++ g2')) as [_ E2]; auto.
  injection E2 as _ E3.
  destruct (span_unique isWhiteSpace (l1 := ws2) g2 (l2 := ws2') g2') as [_ <-]; auto.
  - destruct g2 as [|a g2]; [exact I|].
    apply safe_not_space, num_char_safe. now inversion Hc2.
  - destruct g2' as [|a g2']; [exact I|].
    apply safe_not_space, num_char_safe. now inversion Hc2'.
Qed.

Lemma normalizeCoordinates_separated_pair_witness :
  normalizeCoordinates (RT := asciiRT) (lit "-23.5505 ;  -46.6333")
  = lit "-23.5505,-46.6333".
Proof.
  apply (normalizeCoordinates_separated_pair (RT := asciiRT)
           (lit "-23.5505") (ws1 := lit " ") (ws2 := lit "  ")
           (lit "-46.6333") (sep := c_semicolon)).
  - vm_compute. reflexivity.
  - vm_compute. reflexivity.
  - repeat constructor.
  - repeat constructor.
  - now right.
Defined.




















(* ================================================================== *)
(** * Further properties: which hit names the place *)
(* ================================================================== *)

Lemma find_first {A : Type} (f : A -> bool) before best after :
  Forall (fun h => f h = false) before -> f best = true ->
  find f (before ++ best :: after) = Some best.
Proof.
  induction 1 as [|h before Hh _ IH]; intros Hb; simpl.
  - now rewrite Hb.
  - rewrite Hh. now apply IH.
Qed.

Lemma find_none {A : Type} (f : A -> bool) l :
  Forall (fun h => f h = false) l -> find f l = None.
Proof.
  induction 1 as [|h l Hh _ IH]; simpl; [reflexivity|]. now rewrite Hh.
Qed.

Lemma reverseGeocode_hits P lat lon data first rest :
  reverse_nothing (nominatim_reverse P lat lon) ->
  openMeteo_search_coords P lat lon 5 = Ok data ->
  om_results data = Some (first :: rest) ->
  exists d,
    reverseGeocode P lat lon = Ok d
    /\ rd_country d = or_else (om_country (pick_best first (first :: rest))) (lit "Unknown")
    /\ rd_admin1 d = or_else (om_admin1 (pick_best first (first :: rest))) (lit "Unknown")
    /\ rd_admin2 d = om_admin2 (pick_best first (first :: rest))
    /\ rd_admin3 d = om_admin3 (pick_best first (first :: rest)).
Proof.
  intros Hn Hc Hr. unfold reverseGeocode.
  assert (E : try_catch (nominatim_reverse P lat lon) (fun _ => Ok None) = Ok None).
  { unfold reverse_nothing in Hn.
    destruct (nominatim_reverse P lat lon) as [[d0|]|e]; simpl; tauto. }
  rewrite E, Hc. cbn [try_catch bind]. rewrite Hr. cbv zeta. cbn [try_catch].
  eexists. split; [reflexivity|]. repeat split.
Qed.

(** X18: among the hits of the search by coordinates, the first one
    whose feature code is PPL, PPLA or PPLA2 supplies the country and
    the regions that [reverseGeocode] returns, whatever hits come
    before it; when no hit has such a code, the first hit does. *)
Theorem reverseGeocode_prefers_populated_place
    (P : Providers) (lat lon : number) (data : OMData) (results : list OMHit) :
  reverse_nothing (nominatim_reverse P lat lon) ->
  openMeteo_search_coords P lat lon 5 = Ok data ->
  om_results data = Some results ->
  (forall before best after,
      results = before ++ best :: after ->
      Forall (fun h => is_populated_place h = false) before ->
      is_populated_place best = true ->
      exists d,
        reverseGeocode P lat lon = Ok d
        /\ rd_country d = or_else (om_country best) (lit "Unknown")
        /\ rd_admin1 d = or_else (om_admin1 best) (lit "Unknown")
        /\ rd_admin2 d = om_admin2 best
        /\ rd_admin3 d = om_admin3 best)
  /\ (forall first rest,
        results = first :: rest ->
        Forall (fun h => is_populated_place h = false) results ->
        exists d,
          reverseGeocode P lat lon = Ok d
          /\ rd_country d = or_else (om_country first) (lit "Unknown")
          /\ rd_admin1 d = or_else (om_admin1 first) (lit "Unknown")
          /\ rd_admin2 d = om_admin2 first
          /\ rd_admin3 d = om_admin3 first).
Proof.
  intros Hn Hc Hr. split.
  - intros before best after -> Hb Hp.
    assert (Hne : exists first rest, before ++ best :: after = first :: rest)
      by (destruct before; simpl; eauto).
    destruct Hne as [first [rest Ef]]. rewrite Ef in Hr.
    destruct (@reverseGeocode_hits P lat lon data _ _ Hn Hc Hr) as [d Hd].
    assert (Ep : pick_best first (first :: rest) = best).
    { unfold pick_best. rewrite <- Ef. now rewrite (@find_first _ is_populated_place before best after Hb Hp). }
    rewrite Ep in Hd. eauto.
  - intros first rest -> Hall.
    destruct (@reverseGeocode_hits P lat lon data _ _ Hn Hc Hr) as [d Hd].
    assert (Ep : pick_best first (first :: rest) = first).
    { unfold pick_best. now rewrite (@find_none _ is_populated_place _ Hall). }
    rewrite Ep in Hd. eauto.
Qed.

Lemma reverseGeocode_prefers_populated_place_witness :
  exists d,
    reverseGeocode airport_first (-23.6) (-46.6) = Ok d
    /\ rd_country d = lit "Brazil" /\ rd_admin1 d = lit "Sao Paulo".
Proof.
  destruct (@reverseGeocode_prefers_populated_place airport_first (-23.6) (-46.6)
              {| om_results := Some [airport; sao_paulo] |}
              [airport; sao_paulo] I eq_refl eq_refl) as [H _].
  destruct (H [airport] sao_paulo [] eq_refl) as [d [Hd [H1 [H2 _]]]].
  - repeat constructor.
  - reflexivity.
  - exists d. split; [exact Hd|]. split; [exact H1|exact H2].
Defined.

Lemma startsWith_join sep x rest : startsWith x (join sep (x :: rest)) = true.
Proof.
  destruct rest as [|y rest]; cbn [join].
  - rewrite <- (app_nil_r x) at 2. apply startsWith_app.
  - apply startsWith_app.
Qed.

Lemma fb_name_from_first (result : NomHit) (x : str) (parts : list str) :
  parts = [x] ->
  let address := nh_address result in
  let parts :=
    if truthy_opt (field address na_state)
       && differs_from_first (unwrap (field address na_state)) parts
    then parts ++ [unwrap (field address na_state)]
    else if truthy_opt (field address na_province)
            && differs_from_first (unwrap (field address na_province)) parts
    then parts ++ [unwrap (field address na_province)]
    else parts in
  let parts :=
    if truthy_opt (field address na_country)
    then parts ++ [unwrap (field address na_country)]
    else parts in
  startsWith x
    match parts with
    | _ :: _ => join (lit ", ") parts
    | [] => or_else (nh_display_name result) (lit "Unknown Location")
    end = true.
Proof.
  intros ->. cbv zeta.
  repeat match goal with
         | |- context [if ?b then _ else _] =>
             match type of b with bool => destruct b end
         end;
    cbn [app]; apply startsWith_join.
Qed.

(** X19: the name that the fallback search builds for a hit starts
    with the most specific place field the hit has: the city, else the
    town, else the village, else the hamlet, else the municipality. *)
Theorem fallback_name_starts_with_place (result : NomHit) :
  let address := nh_address result in
  (truthy_opt (field address na_city) = true ->
   startsWith (unwrap (field address na_city)) (fb_buildLocationName result) = true)
  /\ (truthy_opt (field address na_city) = false ->
      truthy_opt (field address na_town) = true ->
      startsWith (unwrap (field address na_town)) (fb_buildLocationName result) = true)
  /\ (truthy_opt (field address na_city) = false ->
      truthy_opt (field address na_town) = false ->
      truthy_opt (field address na_village) = true ->
      startsWith (unwrap (field address na_village)) (fb_buildLocationName result) = true)
  /\ (truthy_opt (field address na_city) = false ->
      truthy_opt (field address na_town) = false ->
      truthy_opt (field address na_village) = false ->
      truthy_opt (field address na_hamlet) = true ->
      startsWith (unwrap (field address na_hamlet)) (fb_buildLocationName result) = true)
  /\ (truthy_opt (field address na_city) = false ->
      truthy_opt (field address na_town) = false ->
      truthy_opt (field address na_village) = false ->
      truthy_opt (field address na_hamlet) = false ->
      truthy_opt (field address na_municipality) = true ->
      startsWith (unwrap (field address na_municipality)) (fb_buildLocationName result)
      = true).
Proof.
  cbv zeta. unfold fb_buildLocationName. cbv zeta.
  repeat split; intros;
    repeat match goal with H : truthy_opt _ = _ |- _ => rewrite H; clear H end;
    apply fb_name_from_first; reflexivity.
Qed.

Lemma fallback_name_starts_with_place_witness :
  startsWith (lit "New York") (fb_buildLocationName new_york) = true
  /\ fb_buildLocationName new_york = lit "New York, United States".
Proof.
  split; [|vm_compute; reflexivity].
  apply (proj1 (fallback_name_starts_with_place new_york)). reflexivity.
Defined.
